(** * The Parzen estimator of optuna's TPE sampler

    A shallow embedding of [optuna/samplers/_tpe/parzen_estimator.py] and the
    properties of its weight scheme, domain transformer, per-parameter
    distribution builders and facade.

    Numbers.  numpy's [float64] is idealised: a finite value is a real number
    and arithmetic on finite values is exact (no rounding, no overflow, no
    signed zero).  Where the code inspects or can create the IEEE special
    values (the weight vector), an array cell is a [Float64.t], a real or one
    of [+inf], [-inf], [nan]; the builders and the domain transformer work on
    finite values, modelled as [R].

    Arrays.  [_calculate_weights] divides an array in place, and that array
    can be a view of an array of the caller, so the weight scheme is embedded
    over a store of buffers, with arrays as views.  The other functions only
    build fresh arrays and are embedded as pure functions on lists. *)

From Stdlib Require Import Reals Lra Lia ZArith Bool.
From stdpp Require Import base option list gmap strings sorting.

Open Scope R_scope.

(** ** Exceptions and results *)

Inductive exn : Type :=
  | ValueError
  | AssertionError
  | IndexError
  | KeyError
  | StopIteration.

Inductive result (A : Type) : Type :=
  | Ok (a : A)
  | Raise (e : exn).

Arguments Ok {A} a.
Arguments Raise {A} e.

#[global] Instance result_ret : MRet result := fun A a => Ok a.
#[global] Instance result_bind : MBind result := fun A B f m =>
  match m with
  | Ok a => f a
  | Raise e => Raise e
  end.

Definition assert (b : bool) : result unit :=
  if b then Ok tt else Raise AssertionError.

Definition raises {A} (m : result A) (e : exn) : Prop := m = Raise e.

Definition succeeds {A} (m : result A) : Prop := exists a, m = Ok a.

(** ** Decidable order on the reals *)

#[global] Instance Rlt_decision : RelDecision Rlt := Rlt_dec.
#[global] Instance Rle_decision : RelDecision Rle := Rle_dec.
#[global] Instance Req_decision : EqDecision R := Req_dec_T.

(** ** float64 with its special values *)

Module Float64.

Inductive t : Type :=
  | Fin (x : R)
  | PInf
  | NInf
  | NaN.

Definition zero : t := Fin 0.

Definition add (a b : t) : t :=
  match a, b with
  | NaN, _ | _, NaN => NaN
  | PInf, NInf | NInf, PInf => NaN
  | PInf, _ | _, PInf => PInf
  | NInf, _ | _, NInf => NInf
  | Fin x, Fin y => Fin (x + y)
  end.

(** Division as numpy does it: a division by zero is no error, it gives an
    infinity or [nan]. *)
Definition div (a b : t) : t :=
  match a, b with
  | NaN, _ | _, NaN => NaN
  | Fin x, Fin y =>
      if decide (y = 0) then
        if decide (x = 0) then NaN
        else if decide (0 < x) then PInf else NInf
      else Fin (x / y)
  | Fin _, (PInf | NInf) => Fin 0
  | (PInf | NInf), (PInf | NInf) => NaN
  | PInf, Fin y => if decide (0 <= y) then PInf else NInf
  | NInf, Fin y => if decide (0 <= y) then NInf else PInf
  end.

Definition ltb (a b : t) : bool :=
  match a, b with
  | NaN, _ | _, NaN => false
  | Fin x, Fin y => bool_decide (x < y)
  | _, NInf => false
  | NInf, _ => true
  | PInf, _ => false
  | Fin _, PInf => true
  end.

Definition leb (a b : t) : bool :=
  match a, b with
  | NaN, _ | _, NaN => false
  | Fin x, Fin y => bool_decide (x <= y)
  | NInf, _ => true
  | _, PInf => true
  | PInf, _ => false
  | Fin _, NInf => false
  end.

Definition isfinite (a : t) : bool :=
  match a with
  | Fin _ => true
  | _ => false
  end.

(** [np.sum] of a one-dimensional array. *)
Definition sum (l : list t) : t := foldr add zero l.

(** The value a [float64] cell takes when an optional Python float is
    stored into it: numpy stores [None] as [nan]. *)
Definition of_option (o : option R) : t :=
  match o with
  | Some x => Fin x
  | None => NaN
  end.

(** A finite, non-negative value. *)
Definition nonneg (a : t) : Prop :=
  match a with
  | Fin x => 0 <= x
  | _ => False
  end.

End Float64.

(** ** The store of array buffers *)

Definition addr := nat.

(** A one-dimensional array: a view of the first [size] cells of the buffer
    at [base].  The slices the code takes all start at index 0. *)
Record ndarray : Type := mk_ndarray { base : addr; size : nat }.

Abbreviation heap := (gmap addr (list Float64.t)).

Definition buffer (h : heap) (a : addr) : list Float64.t := default [] (h !! a).

(** The cells an array shows. *)
Definition read (h : heap) (a : ndarray) : list Float64.t :=
  take (size a) (buffer h (base a)).

(** [a[:n]], a view that shares the buffer of [a]. *)
Definition slice_to (n : nat) (a : ndarray) : ndarray :=
  {| base := base a; size := Nat.min n (size a) |}.

(** A new buffer holding [l], as [np.zeros] or a function returning a new
    array makes one. *)
Definition alloc (l : list Float64.t) (h : heap) : ndarray * heap :=
  let a := fresh (dom h) in
  ({| base := a; size := length l |}, <[a := l]> h).

Definition np_zeros (n : nat) (h : heap) : ndarray * heap :=
  alloc (replicate n Float64.zero) h.

(** Overwrite the cells an array shows, in its buffer. *)
Definition write (a : ndarray) (l : list Float64.t) (h : heap) : heap :=
  <[base a := l ++ drop (size a) (buffer h (base a))]> h.

(** [a[...] = src]: numpy copies a source of the same length, broadcasts a
    source of length one, and raises [ValueError] for every other length. *)
Definition broadcast_to (n : nat) (src : list Float64.t) : result (list Float64.t) :=
  if decide (length src = n) then Ok src
  else
    match src with
    | [x] => Ok (replicate n x)
    | _ => Raise ValueError
    end.

Definition assign (a : ndarray) (src : list Float64.t) (h : heap) : result heap :=
  src ← broadcast_to (size a) src;
  Ok (write a src h).

(** [a[i] = x] for an index in range. *)
Definition store (a : ndarray) (i : nat) (x : Float64.t) (h : heap) : heap :=
  <[base a := <[i := x]> (buffer h (base a))]> h.

(** [a /= d], in place. *)
Definition idiv (a : ndarray) (d : Float64.t) (h : heap) : heap :=
  write a (map (fun x => Float64.div x d) (read h a)) h.

(** ** Estimator parameters *)

Record _ParzenEstimatorParameters : Type := {
  consider_prior : bool;
  prior_weight : option R;
  consider_magic_clip : bool;
  consider_endpoints : bool;
  weights : nat -> list Float64.t;
  multivariate : bool
}.

(** ** The weight scheme *)

Section CalculateWeights.

Variable predetermined_weights : option ndarray.
Variable n_observations : nat.
Variable parameters : _ParzenEstimatorParameters.

(** The three checks on what the weight function returned.  The test
    [w is not None] of the source always holds, a slice being an array. *)
Definition check_weights (w : list Float64.t) : result unit :=
  if existsb (fun x => Float64.ltb x Float64.zero) w then Raise ValueError
  else if bool_decide (0 < length w)%nat && Float64.leb (Float64.sum w) Float64.zero
  then Raise ValueError
  else if negb (forallb Float64.isfinite w) then Raise ValueError
  else Ok tt.

(** The prior is considered when configured, and always without
    observations. *)
Definition prior_considered : bool :=
  if decide (n_observations = 0)%nat then true else consider_prior parameters.

(** The array [w].  The weight function is modelled as returning a new array
    that holds its values; [w] is a view of it, and without the prior it is
    this array that is divided in place.  A function that returns an array it
    keeps, which the division would then change, is outside this model. *)
Definition initial_weights (h : heap) : result (ndarray * heap) :=
  match predetermined_weights with
  | None =>
      let '(r, h) := alloc (weights parameters n_observations) h in
      let w := slice_to n_observations r in
      _ ← check_weights (read h w);
      Ok (w, h)
  | Some p => Ok (slice_to n_observations p, h)
  end.

Definition _calculate_weights (h : heap) : result (ndarray * heap) :=
  '(w, h) ← initial_weights h;
  '(weights, h) ←
    (if prior_considered then
       let '(weights, h) := np_zeros (n_observations + 1) h in
       h ← assign (slice_to n_observations weights) (read h w) h;
       let h := store weights n_observations
                  (Float64.of_option (prior_weight parameters)) h in
       Ok (weights, h)
     else Ok (w, h));
  Ok (weights, idiv weights (Float64.sum (read h weights)) h).

End CalculateWeights.

(** ** numpy on finite values *)

(** [np.sum] of finite values. *)
Definition np_sum (l : list R) : R := foldr Rplus 0 l.

(** [np.clip x lo hi], which is [minimum (maximum x lo) hi]. *)
Definition np_clip (x lo hi : R) : R := Rmin (Rmax x lo) hi.

(** [np.round]: to the nearest integer, a tie to the even one. *)
Definition np_round (x : R) : R :=
  let f := Int_part x in
  let d := x - IZR f in
  if decide (d < 1 / 2) then IZR f
  else if decide (1 / 2 < d) then IZR (f + 1)
  else if Z.even f then IZR f else IZR (f + 1).

(** [astype(int)] of one value: truncation towards zero. *)
Definition astype_int (x : R) : Z :=
  if decide (0 <= x) then Int_part x else (- Int_part (- x))%Z.

(** [np.argsort], as the insertion sort numpy runs on short arrays: indices
    of equal keys stay in their order. *)
Section Argsort.

Context {A : Type} (le : A -> A -> bool).

Fixpoint insert_sorted (x : nat * A) (l : list (nat * A)) : list (nat * A) :=
  match l with
  | [] => [x]
  | y :: l' => if le x.2 y.2 then x :: l else y :: insert_sorted x l'
  end.

Definition np_argsort (l : list A) : list nat :=
  (foldr insert_sorted [] (imap pair l)).*1.

End Argsort.

Definition Rleb (x y : R) : bool := bool_decide (x <= y).

(** [a[indices]] for an array of indices. *)
Definition take_indices (a : list R) (indices : list nat) : list R :=
  map (fun i => nth i a 0) indices.

(** ** The search space

    The distribution classes live in [optuna.distributions]; the estimator
    reads their attributes [low], [high], [log], [step] and [choices].  An
    [IntDistribution] always has a step, a [FloatDistribution] may have none. *)

Definition choice := string.

Inductive BaseDistribution : Type :=
  | FloatDistribution (low high : R) (log : bool) (step : option R)
  | IntDistribution (low high : Z) (log : bool) (step : Z)
  | CategoricalDistribution (choices : list choice).

(** A Python [dict] with string keys, in insertion order. *)
Definition dict (V : Type) : Type := list (string * V).

Fixpoint dict_lookup {V} (d : dict V) (k : string) : option V :=
  match d with
  | [] => None
  | (k', v) :: d' => if decide (k = k') then Some v else dict_lookup d' k
  end.

(** [d[k]] *)
Definition dict_get {V} (d : dict V) (k : string) : result V :=
  match dict_lookup d k with
  | Some v => Ok v
  | None => Raise KeyError
  end.

(** A numpy record array: named columns of one length. *)
Definition recarray : Type := list (string * list R).

(** [np.rec.fromarrays]: the shape is that of the first array, and the
    others must have it. *)
Definition np_rec_fromarrays (columns : list (string * list R)) : result recarray :=
  match columns with
  | [] => Raise IndexError
  | (_, c) :: _ =>
      if forallb (fun kc => bool_decide (length kc.2 = length c)) columns
      then Ok columns
      else Raise ValueError
  end.

(** [sa[name]]: numpy raises [ValueError] for a field that is not there. *)
Definition field (sa : recarray) (name : string) : result (list R) :=
  match dict_lookup sa name with
  | Some c => Ok c
  | None => Raise ValueError
  end.

(** [mapM] over the items of a dict. *)
Fixpoint dict_mapM {V W} (f : string -> V -> result W) (d : dict V) : result (dict W) :=
  match d with
  | [] => Ok []
  | (k, v) :: d' =>
      w ← f k v;
      d'' ← dict_mapM f d';
      Ok ((k, w) :: d'')
  end.

(** ** The domain transformer *)

Definition is_log (distribution : BaseDistribution) : bool :=
  match distribution with
  | FloatDistribution _ _ log _ => log
  | IntDistribution _ _ log _ => log
  | CategoricalDistribution _ => false
  end.

(** The body of the loop of [_transform_to_uniform], on one value. *)
Definition to_uniform (distribution : BaseDistribution) (x : R) : R :=
  match distribution with
  | FloatDistribution _ _ log _ | IntDistribution _ _ log _ =>
      if log then ln x else x
  | CategoricalDistribution _ => x
  end.

Definition _transform_to_uniform (samples_dict : dict (list R))
    (search_space : dict BaseDistribution) : result recarray :=
  transformed_dict ← dict_mapM (fun param_name samples =>
      distribution ← dict_get search_space param_name;
      Ok (map (to_uniform distribution) samples)) samples_dict;
  np_rec_fromarrays transformed_dict.

(** Snap to the grid of step [q] from [low], then clip. *)
Definition snap_and_clip (low high q x : R) : R :=
  np_clip (np_round ((x - low) / q) * q + low) low high.

(** The body of the loop of [_transform_from_uniform], on one value. *)
Definition from_uniform (distribution : BaseDistribution) (x : R) : R :=
  match distribution with
  | FloatDistribution low high log step =>
      if log then exp x
      else
        match step with
        | Some q => snap_and_clip low high q x
        | None => x
        end
  | IntDistribution low high log step =>
      if log then np_clip (np_round (exp x)) (IZR low) (IZR high)
      else snap_and_clip (IZR low) (IZR high) (IZR step) x
  | CategoricalDistribution _ => x
  end.

Definition _transform_from_uniform (samples_sa : recarray)
    (search_space : dict BaseDistribution) : result (dict (list R)) :=
  dict_mapM (fun param_name samples =>
      distribution ← dict_get search_space param_name;
      Ok (map (from_uniform distribution) samples)) samples_sa.

(** ** Per-parameter distributions *)

Definition EPS : R := 1e-12.
Definition SIGMA0_MAGNITUDE : R := 0.2.

(** Modelled from the spec: the constructors of
    [optuna.samplers._tpe.probability_distributions], which is not part of
    the sources.  They pack their arguments: a categorical probability table
    with one row per component, or the arrays of [mu], [sigma], [low], [high]
    (and [step]) with one entry per component. *)
Inductive distribution_array : Type :=
  | _categorical_distribution (weights : list (list R))
  | _truncnorm_distribution (mu sigma low high : list R)
  | _discrete_truncnorm_distribution (mu sigma low high step : list R).

(** The number of mixture components a distribution array describes. *)
Definition n_components (d : distribution_array) : nat :=
  match d with
  | _categorical_distribution weights => length weights
  | _truncnorm_distribution mu _ _ _ => length mu
  | _discrete_truncnorm_distribution mu _ _ _ _ => length mu
  end.

Definition not_none {A} (o : option A) : result A :=
  match o with
  | Some a => Ok a
  | None => Raise AssertionError
  end.

(** An index into an axis of length [k]: a negative index counts from the
    end, and an index out of range raises [IndexError]. *)
Definition normalize_index (k : nat) (i : Z) : result nat :=
  if decide (0 <= i < Z.of_nat k)%Z then Ok (Z.to_nat i)
  else if decide (- Z.of_nat k <= i < 0)%Z then Ok (Z.to_nat (i + Z.of_nat k))
  else Raise IndexError.

(** [weights[np.arange(n), observations] += 1] *)
Fixpoint increment_choices (observations : list Z) (weights : list (list R))
    : result (list (list R)) :=
  match observations, weights with
  | o :: observations', row :: weights' =>
      j ← normalize_index (length row) o;
      rest ← increment_choices observations' weights';
      Ok (alter (Rplus 1) j row :: rest)
  | _, _ => Ok weights
  end.

(** One row of [weights /= weights.sum(axis=1, keepdims=True)]. *)
Definition normalize_row (row : list R) : list R :=
  map (fun x => x / np_sum row) row.

Definition _calculate_categorical_distributions (observations : list R)
    (choices : list choice) (parameters : _ParzenEstimatorParameters)
    : result distribution_array :=
  let observations := map astype_int observations in
  let n_observations := length observations in
  let consider_prior :=
    if decide (n_observations = 0)%nat then true else consider_prior parameters in
  '(rows, value) ←
    (if consider_prior then
       prior_weight ← not_none (prior_weight parameters);
       Ok ((n_observations + 1)%nat, prior_weight / INR (n_observations + 1))
     else
       prior_weight ← not_none (prior_weight parameters);
       Ok (n_observations, prior_weight / INR n_observations));
  let weights := replicate rows (replicate (length choices) value) in
  weights ← increment_choices observations weights;
  Ok (_categorical_distribution (map normalize_row weights)).

(** [high - low + (step or 0)] *)
Definition sigma_range (low high : R) (step : option R) : R :=
  high - low + default 0 step.

(** The bandwidths of the univariate case: for each [mu], the larger gap to
    its neighbours among the sorted [mus] and the two endpoints. *)
Definition neighbour_sigmas (consider_endpoints : bool) (low high : R)
    (step : option R) (mus : list R) : list R :=
  let sorted_indices := np_argsort Rleb mus in
  let sorted_mus := take_indices mus sorted_indices in
  let sorted_mus_with_endpoints :=
    (low - default 0 step / 2) :: sorted_mus ++ [high + default 0 step / 2] in
  let m := length sorted_mus_with_endpoints in
  let inner := take (m - 2) (drop 1 sorted_mus_with_endpoints) in
  let sorted_sigmas :=
    zip_with Rmax
      (zip_with Rminus inner (take (m - 2) sorted_mus_with_endpoints))
      (zip_with Rminus (drop 2 sorted_mus_with_endpoints) inner) in
  let sorted_sigmas :=
    if negb consider_endpoints && bool_decide (4 <= m)%nat then
      <[(length sorted_sigmas - 1)%nat :=
          nth (m - 2) sorted_mus_with_endpoints 0
          - nth (m - 3) sorted_mus_with_endpoints 0]>
        (<[0%nat := nth 2 sorted_mus_with_endpoints 0
                    - nth 1 sorted_mus_with_endpoints 0]> sorted_sigmas)
    else sorted_sigmas in
  take_indices sorted_sigmas (np_argsort Nat.leb sorted_indices).

Section NumericalDistributions.

(** [len(self._search_space)] *)
Variable n_params : nat.

Variable observations : list R.
Variables low high : R.
Variable step : option R.
Variable parameters : _ParzenEstimatorParameters.

Definition numerical_prior_considered : bool :=
  if decide (length observations = 0)%nat then true else consider_prior parameters.

Definition numerical_mus : list R :=
  if numerical_prior_considered
  then observations ++ [0.5 * (low + high)]
  else observations.

(** The bandwidths before they are clipped. *)
Definition raw_sigmas : list R :=
  if multivariate parameters then
    replicate (length numerical_mus)
      (SIGMA0_MAGNITUDE
       * Rpower (INR (Nat.max (length observations) 1)) (- 1.0 / (INR n_params + 4))
       * sigma_range low high step)
  else neighbour_sigmas (consider_endpoints parameters) low high step numerical_mus.

Definition maxsigma : R := 1.0 * sigma_range low high step.

Definition minsigma : R :=
  if consider_magic_clip parameters
  then 1.0 * sigma_range low high step / Rmin 100.0 (1.0 + INR (length numerical_mus))
  else EPS.

Definition numerical_sigmas : list R :=
  let sigmas := map (fun s => np_clip s minsigma maxsigma) raw_sigmas in
  if numerical_prior_considered
  then <[length observations := 1.0 * sigma_range low high step]> sigmas
  else sigmas.

Definition _calculate_numerical_distributions : distribution_array :=
  let mus := numerical_mus in
  let sigmas := numerical_sigmas in
  match step with
  | None =>
      _truncnorm_distribution mus sigmas
        (replicate (length mus) low) (replicate (length mus) high)
  | Some q =>
      _discrete_truncnorm_distribution mus sigmas
        (replicate (length mus) low) (replicate (length mus) high)
        (replicate (length mus) q)
  end.

End NumericalDistributions.

(** The attributes of a numerical distribution, as floats. *)
Definition low_of (distribution : BaseDistribution) : R :=
  match distribution with
  | FloatDistribution low _ _ _ => low
  | IntDistribution low _ _ _ => IZR low
  | CategoricalDistribution _ => 0
  end.

Definition high_of (distribution : BaseDistribution) : R :=
  match distribution with
  | FloatDistribution _ high _ _ => high
  | IntDistribution _ high _ _ => IZR high
  | CategoricalDistribution _ => 0
  end.

Definition step_of (distribution : BaseDistribution) : option R :=
  match distribution with
  | FloatDistribution _ _ _ step => step
  | IntDistribution _ _ _ step => Some (IZR step)
  | CategoricalDistribution _ => None
  end.

(** The bounds and the step in the working domain, as
    [_calculate_distributions] resolves them. *)
Definition working_domain (search_space : BaseDistribution) : R * R * option R :=
  let '(low, high) :=
    if is_log search_space
    then (ln (low_of search_space), ln (high_of search_space))
    else (low_of search_space, high_of search_space) in
  let step := step_of search_space in
  match step with
  | Some q =>
      if is_log search_space
      then (ln (low_of search_space - q / 2), ln (high_of search_space + q / 2), None)
      else (low, high, step)
  | None => (low, high, step)
  end.

Definition _calculate_distributions (n_params : nat) (transformed_observations : list R)
    (search_space : BaseDistribution) (parameters : _ParzenEstimatorParameters)
    : result distribution_array :=
  match search_space with
  | CategoricalDistribution choices =>
      _calculate_categorical_distributions transformed_observations choices parameters
  | _ =>
      let '(low, high, step) := working_domain search_space in
      Ok (_calculate_numerical_distributions n_params transformed_observations
            low high step parameters)
  end.

(** ** The estimator *)

(** Modelled from the spec: [_product_distribution] and
    [_mixture_distribution] of
    [optuna.samplers._tpe.probability_distributions], which is not part of
    the sources.  The product joins the per-parameter distribution arrays
    by parameter name; the mixture pairs it with the weight vector. *)
Record mixture_distribution : Type := {
  product : dict distribution_array;
  mixture_weights : ndarray
}.

Definition _product_distribution (d : dict distribution_array) : dict distribution_array := d.

Definition _mixture_distribution (product_distributions : dict distribution_array)
    (weights : ndarray) : mixture_distribution :=
  {| product := product_distributions; mixture_weights := weights |}.

Record _ParzenEstimator : Type := {
  _search_space : dict BaseDistribution;
  _mixture : mixture_distribution
}.

(** [next(iter(observations.values()))] *)
Definition first_value {V} (d : dict V) : result V :=
  match d with
  | [] => Raise StopIteration
  | (_, v) :: _ => Ok v
  end.

Definition __init__ (observations : dict (list R))
    (search_space : dict BaseDistribution)
    (parameters : _ParzenEstimatorParameters)
    (predetermined_weights : option ndarray) (h : heap)
    : result (_ParzenEstimator * heap) :=
  first ← first_value observations;
  let n_observations := length first in
  _ ← match predetermined_weights with
      | Some p => assert (bool_decide (length first = size p))
      | None => Ok tt
      end;
  '(weights, h) ← _calculate_weights predetermined_weights n_observations parameters h;
  transformed_observations ← _transform_to_uniform observations search_space;
  product_distributions ← dict_mapM (fun param distribution =>
      column ← field transformed_observations param;
      _calculate_distributions (length search_space) column distribution parameters)
    search_space;
  Ok ({| _search_space := search_space;
         _mixture := _mixture_distribution
                       (_product_distribution product_distributions) weights |}, h).

Section Sample.

(** Modelled from the spec: [_sample] of
    [optuna.samplers._tpe.probability_distributions], which is not part of
    the sources: it draws [size] values per parameter, in the working
    domain. *)
Variable rng_state : Type.
Variable _sample : mixture_distribution -> rng_state -> nat -> recarray.

Definition sample (self : _ParzenEstimator) (rng : rng_state) (size : nat)
    : result (dict (list R)) :=
  let sampled := _sample (_mixture self) rng size in
  _transform_from_uniform sampled (_search_space self).

End Sample.

(** ** Specification vocabulary *)

(** The weight vector as a value: [l] divided by its sum. *)
Definition normalize (l : list Float64.t) : list Float64.t :=
  map (fun x => Float64.div x (Float64.sum l)) l.

(** What the checks of [_calculate_weights] reject: a negative entry, a sum
    that is not positive although there are entries, or an entry that is not
    finite. *)
Definition invalid_weights (w : list Float64.t) : Prop :=
  Exists (fun x => Float64.ltb x Float64.zero) w
  \/ ((0 < length w)%nat /\ Float64.leb (Float64.sum w) Float64.zero)
  \/ Exists (fun x => ~ Float64.isfinite x) w.

(** An array of the caller that is allocated in the store and shows its
    whole buffer. *)
Definition allocated (h : heap) (a : ndarray) : Prop :=
  exists l, h !! base a = Some l /\ size a = length l.

(** The first [n_observations] weights [_calculate_weights] starts from:
    what the weight function returns, or the predetermined weights. *)
Definition source_weights (predetermined_weights : option ndarray) (n_observations : nat)
    (parameters : _ParzenEstimatorParameters) (h : heap) : list Float64.t :=
  match predetermined_weights with
  | None => take n_observations (weights parameters n_observations)
  | Some p => take n_observations (read h p)
  end.

(** A finite, positive value. *)
Definition positive (a : Float64.t) : Prop :=
  match a with
  | Float64.Fin x => 0 < x
  | _ => False
  end.

(** ** Example inputs *)

(** A weight function that returns two entries whatever it is asked for. *)
Definition two_weights_parameters : _ParzenEstimatorParameters := {|
  consider_prior := true;
  prior_weight := Some 1;
  consider_magic_clip := true;
  consider_endpoints := false;
  weights := fun _ => [Float64.Fin 1; Float64.Fin 1];
  multivariate := false
|}.

(** A valid weight function with a negative prior weight. *)
Definition negative_prior_parameters : _ParzenEstimatorParameters := {|
  consider_prior := true;
  prior_weight := Some (- (1 / 2));
  consider_magic_clip := true;
  consider_endpoints := false;
  weights := fun n => replicate n (Float64.Fin 1);
  multivariate := false
|}.

(** Uniform weights and a prior weight of one. *)
Definition uniform_parameters : _ParzenEstimatorParameters := {|
  consider_prior := true;
  prior_weight := Some 1;
  consider_magic_clip := true;
  consider_endpoints := false;
  weights := fun n => replicate n (Float64.Fin 1);
  multivariate := false
|}.

(** Uniform weights, no prior. *)
Definition no_prior_parameters : _ParzenEstimatorParameters := {|
  consider_prior := false;
  prior_weight := None;
  consider_magic_clip := true;
  consider_endpoints := false;
  weights := fun n => replicate n (Float64.Fin 1);
  multivariate := false
|}.

(** A store with one array of the caller, [[1, 3]], at address 0. *)
Definition caller_heap : heap := {[ 0%nat := [Float64.Fin 1; Float64.Fin 3] ]}.

Definition caller_weights : ndarray := {| base := 0%nat; size := 2 |}.

(** ** Native domains *)

(** [x] is on the grid [low + k * step], [k = 0, 1, ...]. *)
Definition on_grid (low step x : R) : Prop :=
  exists k : Z, (0 <= k)%Z /\ x = low + IZR k * step.

(** What the constructors of [optuna.distributions] enforce: ordered
    bounds; a positive step that divides the range; a positive lower bound
    under [log]; no step for a [log] float, the step 1 for a [log]
    integer. *)
Definition well_formed (distribution : BaseDistribution) : Prop :=
  match distribution with
  | FloatDistribution low high log step =>
      low <= high
      /\ (log = true -> 0 < low /\ step = None)
      /\ (forall q, step = Some q -> 0 < q /\ on_grid low q high)
  | IntDistribution low high log step =>
      (low <= high)%Z
      /\ (log = true -> (1 <= low)%Z /\ step = 1%Z)
      /\ (0 < step)%Z
      /\ (step | high - low)%Z
  | CategoricalDistribution _ => True
  end.

(** Within the declared [[low, high]]; a categorical parameter declares no
    bounds. *)
Definition within_bounds (distribution : BaseDistribution) (x : R) : Prop :=
  match distribution with
  | CategoricalDistribution _ => True
  | _ => low_of distribution <= x <= high_of distribution
  end.

(** On the declared grid, for a parameter that has a step. *)
Definition on_declared_grid (distribution : BaseDistribution) (x : R) : Prop :=
  match step_of distribution with
  | Some q => on_grid (low_of distribution) q x
  | None => True
  end.

(** An integer parameter on a logarithmic scale, from 1 to 10. *)
Definition log_int_1_10 : BaseDistribution := IntDistribution 1 10 true 1.

(** ** Sampling *)

(** [x] lies within the truncation bounds a distribution array stores for
    one of its components; a categorical table stores no bounds. *)
Definition within_stored_bounds (d : distribution_array) (x : R) : Prop :=
  match d with
  | _categorical_distribution _ => True
  | _truncnorm_distribution _ _ low high
  | _discrete_truncnorm_distribution _ _ low high _ =>
      exists (i : nat) (lo hi : R),
        low !! i = Some lo /\ high !! i = Some hi /\ lo <= x <= hi
  end.

(** The assumption on the sampling primitive: it draws a column for
    parameters of the mixture only, each value within the stored bounds. *)
Definition draws_within_bounds (m : mixture_distribution) (sampled : recarray) : Prop :=
  Forall (fun nc : string * list R =>
            exists d, dict_lookup (product m) nc.1 = Some d
                      /\ Forall (within_stored_bounds d) nc.2) sampled.

(** ** Construction *)

Definition keys {V} (d : dict V) : list string := map fst d.

(** The observations name the parameters of the search space. *)
Definition same_keys {V W} (a : dict V) (b : dict W) : Prop :=
  forall k, In k (keys a) <-> In k (keys b).

Definition is_categorical (distribution : BaseDistribution) : bool :=
  match distribution with
  | CategoricalDistribution _ => true
  | _ => false
  end.

Definition no_categorical (search_space : dict BaseDistribution) : bool :=
  forallb (fun kd => negb (is_categorical kd.2)) search_space.

(** One categorical parameter with three choices, observed once at index 0. *)
Definition abc_space : dict BaseDistribution :=
  [("x"%string, CategoricalDistribution ["a"%string; "b"%string; "c"%string])].

Definition abc_observations : dict (list R) := [("x"%string, [0])].

(** One float parameter on [[0, 1]], observed once at 1/2. *)
Definition unit_space : dict BaseDistribution :=
  [("x"%string, FloatDistribution 0 1 false None)].

Definition unit_observations : dict (list R) := [("x"%string, [1 / 2])].

(** The single component built without observations, in the words of the
    specification: the prior [mu] and [sigma] over the working domain of a
    numerical parameter, and one smoothed row for a categorical one. *)
Definition prior_component (distribution : BaseDistribution) (prior_weight : option R)
    : option distribution_array :=
  match distribution with
  | CategoricalDistribution choices =>
      pw ← prior_weight;
      Some (_categorical_distribution
              [normalize_row (replicate (length choices) (pw / INR 1))])
  | _ =>
      let '(low, high, step) := working_domain distribution in
      let prior_mu := 0.5 * (low + high) in
      let prior_sigma := 1.0 * (high - low + default 0 step) in
      Some match step with
           | None => _truncnorm_distribution [prior_mu] [prior_sigma] [low] [high]
           | Some q =>
               _discrete_truncnorm_distribution [prior_mu] [prior_sigma] [low] [high] [q]
           end
  end.

(** [consider_prior] off, with a prior weight. *)
Definition forced_prior_parameters : _ParzenEstimatorParameters := {|
  consider_prior := false;
  prior_weight := Some 1;
  consider_magic_clip := true;
  consider_endpoints := false;
  weights := fun n => replicate n (Float64.Fin 1);
  multivariate := false
|}.

(** A float and a categorical parameter, not observed yet. *)
Definition mixed_space : dict BaseDistribution :=
  [("x"%string, FloatDistribution 0 1 false None);
   ("c"%string, CategoricalDistribution ["a"%string; "b"%string; "c"%string])].

Definition no_observations : dict (list R) := [("x"%string, []); ("c"%string, [])].

(** ** The categorical table, in the words of the specification *)

(** A matrix with one row per observation, and one more for the prior if it
    is considered, filled with the prior weight divided by the number of
    rows; one is added to the column of the observed choice in the row of
    each observation; every row is divided by its sum. *)
Definition categorical_table_spec (observed : list nat) (k : nat) (prior_weight : R)
    (consider_prior : bool) : list (list R) :=
  let n := length observed in
  let rows := if consider_prior then (n + 1)%nat else n in
  let filled := replicate k (prior_weight / INR rows) in
  map normalize_row
    (map (fun c => alter (Rplus 1) c filled) observed
     ++ (if consider_prior then [filled] else [])).

(** The choice index numpy reads from an observation. *)
Definition choice_index (o : R) : nat := Z.to_nat (astype_int o).

Definition abc : list choice := ["a"%string; "b"%string; "c"%string].

(** A store with an array of the caller that no weight function could
    return: [[-1, nan]], at address 0. *)
Definition unchecked_heap : heap := {[ 0%nat := [Float64.Fin (-1); Float64.NaN] ]}.

(** An integer parameter with the step 2 and a float parameter on a
    logarithmic scale, each observed once. *)
Definition grid_space : dict BaseDistribution :=
  [("n"%string, IntDistribution 0 10 false 2);
   ("lr"%string, FloatDistribution 1 10 true None)].

Definition grid_observations : dict (list R) := [("n"%string, [4]); ("lr"%string, [2])].

(** A sampling primitive that draws 2.4 for [n] and [ln 2] for [lr], [size]
    times each. *)
Definition sample_grid (m : mixture_distribution) (rng : unit) (size : nat) : recarray :=
  [("n"%string, replicate size (12 / 5)); ("lr"%string, replicate size (ln 2))].

(** The prior is considered, but there is no prior weight. *)
Definition null_prior_parameters : _ParzenEstimatorParameters := {|
  consider_prior := true;
  prior_weight := None;
  consider_magic_clip := true;
  consider_endpoints := false;
  weights := fun n => replicate n (Float64.Fin 1);
  multivariate := false
|}.

(** The categorical parameter of [abc_space], not observed yet. *)
Definition abc_no_observations : dict (list R) := [("x"%string, [])].

(** No prior and no magic clip. *)
Definition no_magic_clip_parameters : _ParzenEstimatorParameters := {|
  consider_prior := false;
  prior_weight := None;
  consider_magic_clip := false;
  consider_endpoints := true;
  weights := fun n => replicate n (Float64.Fin 1);
  multivariate := false
|}.

(** ** The log-density *)

Section LogPdf.

(** Modelled from the spec: [_logpdf] of
    [optuna.samplers._tpe.probability_distributions], which is not part of
    the sources: one log-density per row of the queries, for the mixture
    broadcast to the shape of the queries. *)
Variable _logpdf : mixture_distribution -> recarray -> list R.

Definition log_pdf (self : _ParzenEstimator) (samples_dict : dict (list R))
    : result (list R) :=
  transformed_samples_sa ← _transform_to_uniform samples_dict (_search_space self);
  Ok (_logpdf (_mixture self) transformed_samples_sa).

End LogPdf.

(** ** Vocabulary of the further properties *)

(** The search space has the parameter a column is named after. *)
Definition known {V} (search_space : dict BaseDistribution) (kc : string * V) : Prop :=
  is_Some (dict_lookup search_space kc.1).

(** A column and its image, under the same name, by a transform of the
    distribution the search space has for that name. *)
Definition transformed_by (f : BaseDistribution -> R -> R)
    (search_space : dict BaseDistribution) (kc kc' : string * list R) : Prop :=
  kc'.1 = kc.1
  /\ exists distribution,
       dict_lookup search_space kc.1 = Some distribution
       /\ kc'.2 = map (f distribution) kc.2.

(** The search space has no parameter of the name of a column. *)
Definition unknown {V} (search_space : dict BaseDistribution) (kc : string * V) : Prop :=
  dict_lookup search_space kc.1 = None.

(** A float on [[1, 10]] in logarithmic scale and a categorical parameter. *)
Definition log_space : dict BaseDistribution :=
  [("lr"%string, FloatDistribution 1 10 true None); ("c"%string, CategoricalDistribution abc)].

(** An estimator over [log_space]; the primitives below do not look at its
    mixture. *)
Definition log_estimator : _ParzenEstimator := {|
  _search_space := log_space;
  _mixture := {| product := []; mixture_weights := {| base := 0%nat; size := 0 |} |}
|}.

(** A sampling primitive that returns two fixed draws per parameter. *)
Definition sample_log (m : mixture_distribution) (rng : unit) (size : nat) : recarray :=
  [("lr"%string, [0; ln 10]); ("c"%string, [0; 2])].

(** A log-density primitive: the number of columns, for every row. *)
Definition count_columns (m : mixture_distribution) (sa : recarray) : list R :=
  match sa with
  | [] => []
  | (_, c) :: _ => map (fun _ => INR (length sa)) c
  end.



(** An observation whose index is one numpy accepts for an axis of [k]
    choices: from [-k], counting from the end, up to [k - 1]. *)
Definition index_in_range (k : nat) (o : R) : Prop :=
  (- Z.of_nat k <= astype_int o < Z.of_nat k)%Z.

(** A row of positive probabilities that sum to one, one per choice. *)
Definition probability_row (k : nat) (row : list R) : Prop :=
  length row = k /\ Forall (Rlt 0) row /\ np_sum row = 1.

(** The table of a categorical distribution array. *)
Definition table_of (d : distribution_array) : list (list R) :=
  match d with
  | _categorical_distribution weights => weights
  | _ => []
  end.

(** The arrays of a numerical distribution array. *)
Definition mus_of (d : distribution_array) : list R :=
  match d with
  | _truncnorm_distribution mu _ _ _ | _discrete_truncnorm_distribution mu _ _ _ _ => mu
  | _ => []
  end.

Definition sigmas_of (d : distribution_array) : list R :=
  match d with
  | _truncnorm_distribution _ sigma _ _
  | _discrete_truncnorm_distribution _ sigma _ _ _ => sigma
  | _ => []
  end.

Definition lows_of (d : distribution_array) : list R :=
  match d with
  | _truncnorm_distribution _ _ low _ | _discrete_truncnorm_distribution _ _ low _ _ => low
  | _ => []
  end.

Definition highs_of (d : distribution_array) : list R :=
  match d with
  | _truncnorm_distribution _ _ _ high
  | _discrete_truncnorm_distribution _ _ _ high _ => high
  | _ => []
  end.

(** ** The bandwidth rules, in closed form *)

(** The bandwidth of the multivariate rule, before it is clipped. *)
Definition multivariate_sigma (n_params n_observations : nat) (low high : R)
    (step : option R) : R :=
  SIGMA0_MAGNITUDE
  * Rpower (INR (Nat.max n_observations 1)) (- 1.0 / (INR n_params + 4))
  * sigma_range low high step.

Definition multivariate_parameters : _ParzenEstimatorParameters := {|
  consider_prior := true;
  prior_weight := Some 1;
  consider_magic_clip := true;
  consider_endpoints := false;
  weights := fun n => replicate n (Float64.Fin 1);
  multivariate := true
|}.

(** The parameters with [consider_endpoints] set. *)
Definition with_endpoints (b : bool) (parameters : _ParzenEstimatorParameters)
    : _ParzenEstimatorParameters := {|
  consider_prior := consider_prior parameters;
  prior_weight := prior_weight parameters;
  consider_magic_clip := consider_magic_clip parameters;
  consider_endpoints := b;
  weights := weights parameters;
  multivariate := multivariate parameters
|}.

(** [l] is entry by entry at most [k], an entry out of range counting as 0. *)
Definition pointwise_le (l k : list R) : Prop := forall i, nth i l 0 <= nth i k 0.

(** The order of two indexed values by their values. *)
Definition key_le {A} (le : A -> A -> bool) (p q : nat * A) : Prop := le p.2 q.2 = true.

(** The order a comparison function decides. *)
Definition decided {A} (le : A -> A -> bool) (x y : A) : Prop := le x y = true.

(** The bandwidth of the univariate rule for a point [mu] of rank [r] among
    [n] sorted points, [x] and [z] being its neighbours in the sorted
    sequence with the two endpoints: the larger gap; without the endpoints,
    and with two points at least, the first point only looks right and the
    last one only left. *)
Definition neighbour_gap (consider_endpoints : bool) (n r : nat) (x mu z : R) : R :=
  if negb consider_endpoints && bool_decide (2 <= n)%nat then
    if decide (r = n - 1)%nat then mu - x
    else if decide (r = 0)%nat then z - mu
    else Rmax (mu - x) (z - mu)
  else Rmax (mu - x) (z - mu).

(** The prior, and a weight function that returns one weight whatever it is
    asked for. *)
Definition one_weight_prior_parameters : _ParzenEstimatorParameters := {|
  consider_prior := true;
  prior_weight := Some 1;
  consider_magic_clip := true;
  consider_endpoints := false;
  weights := fun _ => [Float64.Fin 2];
  multivariate := false
|}.

(** * Properties *)

(** ** The store *)

Lemma buffer_insert (h : heap) (a : addr) (l : list Float64.t) :
  buffer (<[a := l]> h) a = l.
Proof. unfold buffer. by rewrite lookup_insert_eq. Qed.

Lemma buffer_insert_ne (h : heap) (a b : addr) (l : list Float64.t) :
  a <> b -> buffer (<[a := l]> h) b = buffer h b.
Proof. intros Hab. unfold buffer. by rewrite lookup_insert_ne. Qed.

Lemma fresh_unallocated (h : heap) : h !! fresh (dom h) = None.
Proof. apply not_elem_of_dom, is_fresh. Qed.

Lemma allocated_not_fresh (h : heap) (a : ndarray) :
  allocated h a -> base a <> fresh (dom h).
Proof.
  intros (l & Hl & _) Heq. rewrite Heq, fresh_unallocated in Hl. discriminate.
Qed.

Lemma read_allocated (h : heap) (a : ndarray) (l : list Float64.t) :
  h !! base a = Some l -> size a = length l -> read h a = l.
Proof.
  intros Hl Hs. unfold read, buffer. rewrite Hl, Hs. apply firstn_all.
Qed.

Lemma read_slice_to (h : heap) (n : nat) (a : ndarray) :
  read h (slice_to n a) = take n (read h a).
Proof. unfold read, slice_to. simpl. by rewrite take_take. Qed.

Lemma broadcast_to_length (n : nat) (src l : list Float64.t) :
  broadcast_to n src = Ok l -> length l = n.
Proof.
  unfold broadcast_to. case_decide as Hn.
  - intros [= <-]. exact Hn.
  - destruct src as [|x [|y src]]; try discriminate.
    intros [= <-]. apply length_replicate.
Qed.

Lemma broadcast_to_same (src : list Float64.t) :
  broadcast_to (length src) src = Ok src.
Proof. unfold broadcast_to. by rewrite decide_True. Qed.

(** ** The weight scheme, run on the store *)

Section WeightsRun.

Variable predetermined_weights : option ndarray.
Variable n_observations : nat.
Variable parameters : _ParzenEstimatorParameters.

(** Without the prior, the array [w] itself is divided in place. *)
Lemma calculate_weights_in_place (h h1 : heap) (w : ndarray) :
  prior_considered n_observations parameters = false ->
  initial_weights predetermined_weights n_observations parameters h = Ok (w, h1) ->
  _calculate_weights predetermined_weights n_observations parameters h
  = Ok (w, idiv w (Float64.sum (read h1 w)) h1).
Proof.
  unfold _calculate_weights. intros -> ->. reflexivity.
Qed.

(** With the prior, a new array takes [w] and the prior weight and is
    divided; the store is otherwise left as it was. *)
Lemma calculate_weights_fresh (h h1 : heap) (w : ndarray) :
  prior_considered n_observations parameters = true ->
  initial_weights predetermined_weights n_observations parameters h = Ok (w, h1) ->
  is_Some (h1 !! base w) ->
  _calculate_weights predetermined_weights n_observations parameters h =
    src ← broadcast_to n_observations (read h1 w);
    Ok ({| base := fresh (dom h1); size := n_observations + 1 |},
        <[fresh (dom h1) := normalize (src ++ [Float64.of_option (prior_weight parameters)])]> h1).
Proof.
  unfold _calculate_weights. intros -> -> Hw.
  cbn [mbind result_bind]. unfold np_zeros, alloc.
  set (a := fresh (dom h1)).
  assert (Hne : a <> base w).
  { intros Heq. subst a. rewrite <- Heq, fresh_unallocated in Hw.
    by destruct Hw. }
  assert (Hr : read (<[a := replicate (n_observations + 1) Float64.zero]> h1) w
               = read h1 w).
  { unfold read. by rewrite buffer_insert_ne. }
  rewrite Hr. unfold assign, slice_to. cbn [size base].
  rewrite length_replicate, Nat.min_l by lia.
  destruct (broadcast_to n_observations (read h1 w)) as [src|e] eqn:Hb;
    cbn [mbind result_bind]; [|reflexivity].
  apply broadcast_to_length in Hb.
  unfold idiv, store, write, read. cbn [size base].
  rewrite !buffer_insert, !insert_insert_eq.
  rewrite drop_replicate, Nat.add_sub'. cbn [replicate].
  replace (<[n_observations := Float64.of_option (prior_weight parameters)]>
             (src ++ [Float64.zero]))
    with (src ++ [Float64.of_option (prior_weight parameters)]).
  2:{ rewrite <- Hb at 1. rewrite insert_app_r_alt by lia.
      by rewrite Nat.sub_diag. }
  rewrite firstn_all2 by (rewrite length_app; cbn; lia).
  rewrite drop_ge by (rewrite length_app; cbn; lia).
  by rewrite app_nil_r.
Qed.

End WeightsRun.

(** ** The checks on the weight function *)

Lemma existsb_Exists {A} (f : A -> bool) (l : list A) :
  existsb f l = true <-> Exists (fun x => f x) l.
Proof.
  induction l as [|x l IH]; cbn.
  - split; [discriminate | by inversion 1].
  - rewrite orb_true_iff, Exists_cons, IH, Is_true_true. reflexivity.
Qed.

Lemma forallb_false_Exists {A} (f : A -> bool) (l : list A) :
  forallb f l = false <-> Exists (fun x => ~ f x) l.
Proof.
  induction l as [|x l IH]; cbn.
  - split; [discriminate | by inversion 1].
  - rewrite andb_false_iff, Exists_cons, IH, Is_true_false. reflexivity.
Qed.

Lemma check_weights_raises (w : list Float64.t) :
  check_weights w = Raise ValueError <-> invalid_weights w.
Proof.
  unfold check_weights, invalid_weights.
  rewrite <- existsb_Exists, <- forallb_false_Exists.
  rewrite Is_true_true.
  destruct (bool_decide (0 < length w)%nat) eqn:Hlen;
    [apply bool_decide_eq_true in Hlen | apply bool_decide_eq_false in Hlen];
    destruct (existsb _ w), (Float64.leb (Float64.sum w) Float64.zero),
      (forallb Float64.isfinite w);
    cbn; intuition congruence.
Qed.

Lemma check_weights_cases (w : list Float64.t) :
  check_weights w = Raise ValueError \/ check_weights w = Ok tt.
Proof.
  unfold check_weights. repeat case_match; auto.
Qed.

Lemma check_weights_ok (w : list Float64.t) :
  check_weights w = Ok tt <-> ~ invalid_weights w.
Proof.
  rewrite <- check_weights_raises.
  destruct (check_weights_cases w) as [-> | ->]; split; try done.
Qed.

Lemma initial_weights_computed (n : nat) (parameters : _ParzenEstimatorParameters)
    (h : heap) :
  initial_weights None n parameters h =
    _ ← check_weights (take n (weights parameters n));
    Ok (slice_to n {| base := fresh (dom h); size := length (weights parameters n) |},
        <[fresh (dom h) := weights parameters n]> h).
Proof.
  unfold initial_weights, alloc.
  rewrite read_slice_to.
  rewrite (read_allocated _ _ (weights parameters n)); [done| |done].
  cbn [base]. by rewrite lookup_insert_eq.
Qed.

(** What [w] shows once [initial_weights] has run. *)
Lemma initial_weights_read (pre : option ndarray) (n : nat)
    (parameters : _ParzenEstimatorParameters) (h h1 : heap) (w : ndarray) :
  initial_weights pre n parameters h = Ok (w, h1) ->
  read h1 w = source_weights pre n parameters h.
Proof.
  destruct pre as [p|].
  - cbn. intros [= <- <-]. apply read_slice_to.
  - rewrite initial_weights_computed.
    destruct (check_weights _); [|discriminate].
    cbn [mbind result_bind]. intros [= <- <-].
    rewrite read_slice_to.
    rewrite (read_allocated _ _ (weights parameters n)); [done| |done].
    cbn [base]. by rewrite lookup_insert_eq.
Qed.

Lemma initial_weights_allocated (pre : option ndarray) (n : nat)
    (parameters : _ParzenEstimatorParameters) (h h1 : heap) (w : ndarray) :
  (forall p, pre = Some p -> allocated h p) ->
  initial_weights pre n parameters h = Ok (w, h1) ->
  is_Some (h1 !! base w).
Proof.
  intros Hp. destruct pre as [p|].
  - cbn. intros [= <- <-]. destruct (Hp p eq_refl) as (l & Hl & _).
    cbn [slice_to base]. by rewrite Hl.
  - rewrite initial_weights_computed.
    destruct (check_weights _); [|discriminate].
    cbn [mbind result_bind]. intros [= <- <-].
    cbn [slice_to base]. by rewrite lookup_insert_eq.
Qed.

Lemma broadcast_to_raises (n : nat) (src : list Float64.t) (e : exn) :
  broadcast_to n src = Raise e <-> e = ValueError /\ length src <> n /\ length src <> 1%nat.
Proof.
  unfold broadcast_to. case_decide as Hn.
  - split; [discriminate | tauto].
  - destruct src as [|x [|y src]]; cbn in *.
    + split; [intros [= <-]; repeat split; [done | lia] | by intros (-> & _)].
    + split; [discriminate | intros (_ & _ & ?); done].
    + split; [intros [= <-]; repeat split; [done | lia] | by intros (-> & _)].
Qed.

(** The whole run of the weight scheme, from the weights it starts from, when
    the weight function is called. *)
Lemma calculate_weights_computed (n : nat) (parameters : _ParzenEstimatorParameters)
    (h : heap) :
  let w := take n (weights parameters n) in
  let h1 := <[fresh (dom h) := weights parameters n]> h in
  let a := slice_to n {| base := fresh (dom h); size := length (weights parameters n) |} in
  _calculate_weights None n parameters h =
    _ ← check_weights w;
    if prior_considered n parameters then
      src ← broadcast_to n w;
      Ok ({| base := fresh (dom h1); size := n + 1 |},
          <[fresh (dom h1) := normalize
              (src ++ [Float64.of_option (prior_weight parameters)])]> h1)
    else Ok (a, idiv a (Float64.sum w) h1).
Proof.
  intros w h1 a.
  pose proof (initial_weights_computed n parameters h) as Hi.
  fold w h1 a in Hi.
  destruct (check_weights w) as [[]|e] eqn:Hc; cbn [mbind result_bind] in *.
  - pose proof (initial_weights_read _ _ _ _ _ _ Hi) as Hr. unfold source_weights in Hr. fold w in Hr.
    destruct (prior_considered n parameters) eqn:Hp.
    + rewrite (calculate_weights_fresh _ _ _ _ _ _ Hp Hi), Hr; [done|].
      eapply initial_weights_allocated; [|exact Hi]. discriminate.
    + by rewrite (calculate_weights_in_place _ _ _ _ _ _ Hp Hi), Hr.
  - unfold _calculate_weights. by rewrite Hi.
Qed.

(** Comparisons of finite values, as propositions. *)
Lemma ltb_Fin (x y : R) : Float64.ltb (Float64.Fin x) (Float64.Fin y) <-> x < y.
Proof. cbn. apply bool_decide_spec. Qed.

Lemma leb_Fin (x y : R) : Float64.leb (Float64.Fin x) (Float64.Fin y) <-> x <= y.
Proof. cbn. apply bool_decide_spec. Qed.

Lemma calculate_weights_predetermined_succeeds (n : nat)
    (parameters : _ParzenEstimatorParameters) (h : heap) (p : ndarray) :
  allocated h p ->
  size p = n ->
  succeeds (_calculate_weights (Some p) n parameters h).
Proof.
  intros (buf & Hbuf & Hsize) Hn.
  assert (Hi : initial_weights (Some p) n parameters h = Ok (slice_to n p, h))
    by reflexivity.
  assert (Hr : read h (slice_to n p) = buf).
  { rewrite read_slice_to, (read_allocated _ _ _ Hbuf Hsize).
    apply firstn_all2. lia. }
  destruct (prior_considered n parameters) eqn:Hp.
  - rewrite (calculate_weights_fresh _ _ _ _ _ _ Hp Hi), Hr
      by (cbn [slice_to base]; by rewrite Hbuf).
    replace n with (length buf) by lia. rewrite broadcast_to_same. by eexists.
  - rewrite (calculate_weights_in_place _ _ _ _ _ _ Hp Hi). by eexists.
Qed.

(** C7 (as amended).  When the weights are not predetermined,
    [_calculate_weights] raises [ValueError] exactly when the first
    [n_observations] entries the weight function returned have a negative
    entry, or a sum that is not positive although there are entries, or an
    entry that is not finite, or when the prior is considered and the weight
    function returned fewer than [n_observations] entries, and not exactly
    one: then the assignment into the new vector cannot broadcast.  When the
    weights are predetermined, their first [n_observations] entries are
    taken as they are and none of the checks runs: whatever [n_observations]
    predetermined weights an array of the caller holds, the weight scheme
    succeeds. *)
Theorem calculate_weights_value_error (n : nat)
    (parameters : _ParzenEstimatorParameters) (h : heap) :
  let w := take n (weights parameters n) in
  (raises (_calculate_weights None n parameters h) ValueError <->
     invalid_weights w \/
     (prior_considered n parameters = true /\ length w <> n /\ length w <> 1%nat))
  /\ (forall p, initial_weights (Some p) n parameters h = Ok (slice_to n p, h)
                /\ read h (slice_to n p) = take n (read h p))
  /\ (forall p, allocated h p -> size p = n ->
                succeeds (_calculate_weights (Some p) n parameters h)).
Proof.
  intros w.
  split; [|split; [intros p; split; [reflexivity | apply read_slice_to]
                  |apply calculate_weights_predetermined_succeeds]].
  unfold raises. rewrite calculate_weights_computed. fold w.
  destruct (check_weights_cases w) as [Hc|Hc]; rewrite Hc; cbn [mbind result_bind].
  - apply check_weights_raises in Hc. tauto.
  - apply check_weights_ok in Hc.
    destruct (prior_considered n parameters).
    + destruct (broadcast_to n w) as [src|e] eqn:Hb; cbn [mbind result_bind].
      * split; [discriminate|]. intros [?|(_ & Hn)]; [done|].
        assert (Hr : broadcast_to n w = Raise ValueError)
          by (by apply broadcast_to_raises).
        congruence.
      * apply broadcast_to_raises in Hb as (-> & Hn). split; [|done].
        intros _. right. tauto.
    + split; [discriminate|]. intros [?|(? & _)]; done.
Qed.

Lemma calculate_weights_value_error_witness :
  succeeds (_calculate_weights (Some caller_weights) 2 no_prior_parameters
              unchecked_heap).
Proof.
  apply (calculate_weights_value_error 2 no_prior_parameters unchecked_heap).
  - exists [Float64.Fin (-1); Float64.NaN]. split; [apply lookup_singleton_eq | done].
  - reflexivity.
Defined.

(** C7, as stated, fails: two valid weights for three observations raise
    [ValueError] when the prior is considered. *)
Lemma calculate_weights_short_weights_raise :
  raises (_calculate_weights None 3 two_weights_parameters ∅) ValueError
  /\ ~ invalid_weights (take 3 (weights two_weights_parameters 3)).
Proof.
  assert (Hv : ~ invalid_weights (take 3 (weights two_weights_parameters 3))).
  { cbn. unfold invalid_weights. rewrite !Exists_cons, !Exists_nil. cbn.
    rewrite !bool_decide_spec. intros [H|[[_ H]|H]]; [lra | lra | tauto]. }
  split; [|exact Hv].
  unfold raises. rewrite calculate_weights_computed.
  apply check_weights_ok in Hv. rewrite Hv. reflexivity.
Qed.

(** ** Normalised weights *)

Lemma div_Fin (x y : R) :
  y <> 0 -> Float64.div (Float64.Fin x) (Float64.Fin y) = Float64.Fin (x / y).
Proof. intros Hy. cbn. by rewrite decide_False. Qed.

Lemma nonneg_reals (l : list Float64.t) :
  Forall Float64.nonneg l ->
  exists rs, l = map Float64.Fin rs /\ Forall (Rle 0) rs.
Proof.
  induction 1 as [|a l Ha _ (rs & -> & Hrs)].
  - by exists [].
  - destruct a as [x| | |]; try done. exists (x :: rs). split; [done|].
    by constructor.
Qed.

Lemma sum_Fin (rs : list R) :
  Float64.sum (map Float64.Fin rs) = Float64.Fin (np_sum rs).
Proof.
  induction rs as [|x rs IH]; [done|].
  cbn. unfold Float64.sum in IH. by rewrite IH.
Qed.

Lemma np_sum_nil : np_sum [] = 0.
Proof. reflexivity. Qed.

Lemma np_sum_cons (x : R) (rs : list R) : np_sum (x :: rs) = x + np_sum rs.
Proof. reflexivity. Qed.

Lemma np_sum_nonneg (rs : list R) : Forall (Rle 0) rs -> 0 <= np_sum rs.
Proof. induction 1; rewrite ?np_sum_nil, ?np_sum_cons; lra. Qed.

Lemma np_sum_div (rs : list R) (c : R) :
  np_sum (map (fun x => x / c) rs) = np_sum rs / c.
Proof.
  induction rs as [|x rs IH]; cbn [map];
    rewrite ?np_sum_nil, ?np_sum_cons, ?IH; lra.
Qed.

Lemma np_sum_app (l1 l2 : list R) : np_sum (l1 ++ l2) = np_sum l1 + np_sum l2.
Proof.
  induction l1 as [|x l1 IH]; cbn [app];
    rewrite ?np_sum_nil, ?np_sum_cons, ?IH; lra.
Qed.

Lemma normalize_Fin (rs : list R) :
  np_sum rs <> 0 ->
  normalize (map Float64.Fin rs) = map Float64.Fin (map (fun x => x / np_sum rs) rs).
Proof.
  intros Hs. unfold normalize. rewrite sum_Fin, !map_map.
  apply map_ext. intros x. by apply div_Fin.
Qed.

Lemma length_normalize (l : list Float64.t) : length (normalize l) = length l.
Proof. apply length_map. Qed.

(** Dividing non-negative weights of positive sum by that sum gives
    non-negative weights of sum one. *)
Lemma normalize_valid (l : list Float64.t) :
  Forall Float64.nonneg l ->
  positive (Float64.sum l) ->
  Forall Float64.nonneg (normalize l) /\ Float64.sum (normalize l) = Float64.Fin 1.
Proof.
  intros (rs & -> & Hrs)%nonneg_reals Hpos.
  rewrite sum_Fin in Hpos. cbn in Hpos.
  rewrite normalize_Fin by lra. split.
  - rewrite Forall_map, Forall_map. eapply Forall_impl; [exact Hrs|].
    intros x Hx. cbn. apply Rle_mult_inv_pos; [exact Hx | exact Hpos].
  - rewrite sum_Fin, np_sum_div. f_equal. field. lra.
Qed.

Lemma valid_not_invalid (w : list Float64.t) :
  Forall Float64.nonneg w ->
  ((0 < length w)%nat -> positive (Float64.sum w)) ->
  ~ invalid_weights w.
Proof.
  intros (rs & -> & Hrs)%nonneg_reals Hpos [H|[[Hlen H]|H]].
  - apply List.Exists_exists in H as (a & (x & <- & Hx)%List.in_map_iff & Hlt).
    rewrite List.Forall_forall in Hrs. apply Hrs in Hx.
    apply ltb_Fin in Hlt. lra.
  - specialize (Hpos Hlen). rewrite sum_Fin in *. apply leb_Fin in H. cbn in Hpos. lra.
  - apply List.Exists_exists in H as (a & (x & <- & Hx)%List.in_map_iff & Hn).
    by apply Hn.
Qed.

Lemma length_read (h : heap) (a : ndarray) :
  length (read h a) = Nat.min (size a) (length (buffer h (base a))).
Proof. unfold read. apply length_take. Qed.

Lemma read_idiv (h : heap) (a : ndarray) (d : Float64.t) :
  length (read h a) = size a ->
  read (idiv a d h) a = map (fun x => Float64.div x d) (read h a).
Proof.
  intros Hlen. unfold idiv, write. unfold read at 1.
  rewrite buffer_insert, take_app_le by (rewrite length_map; lia).
  apply firstn_all2. rewrite length_map. lia.
Qed.

Lemma initial_weights_succeeds (pre : option ndarray) (n : nat)
    (parameters : _ParzenEstimatorParameters) (h : heap) :
  ~ invalid_weights (source_weights pre n parameters h) ->
  exists w h1, initial_weights pre n parameters h = Ok (w, h1).
Proof.
  intros Hv. destruct pre as [p|].
  - by eexists _, _.
  - rewrite initial_weights_computed. apply check_weights_ok in Hv.
    cbn in Hv. rewrite Hv. by eexists _, _.
Qed.

Lemma positive_sum_snoc (w : list Float64.t) (pw : R) :
  Forall Float64.nonneg w ->
  0 <= pw ->
  (w = [] -> 0 < pw) ->
  (w <> [] -> positive (Float64.sum w)) ->
  positive (Float64.sum (w ++ [Float64.Fin pw])).
Proof.
  intros (rs & -> & Hrs)%nonneg_reals Hpw Hnil Hpos.
  change [Float64.Fin pw] with (map Float64.Fin [pw]).
  rewrite <- map_app, sum_Fin, np_sum_app. unfold positive.
  rewrite (np_sum_cons pw), np_sum_nil.
  destruct rs as [|r rs].
  - specialize (Hnil eq_refl). rewrite np_sum_nil. lra.
  - assert (Hp : positive (Float64.sum (map Float64.Fin (r :: rs)))) by by apply Hpos.
    rewrite sum_Fin in Hp. unfold positive in Hp. lra.
Qed.

(** C1 (as amended).  When the first [n_observations] weights the scheme
    starts from are [n_observations] non-negative finite values, of positive
    sum if there are any, and the prior weight, where the prior is
    considered, is given, non-negative, and positive if there is no
    observation, [_calculate_weights] returns a vector of non-negative
    entries that sum to one, of length [n_observations], plus one if the
    prior is considered. *)
Theorem calculate_weights_normalized (pre : option ndarray) (n : nat)
    (parameters : _ParzenEstimatorParameters) (h : heap) :
  (forall p, pre = Some p -> allocated h p) ->
  length (source_weights pre n parameters h) = n ->
  Forall Float64.nonneg (source_weights pre n parameters h) ->
  ((0 < n)%nat -> positive (Float64.sum (source_weights pre n parameters h))) ->
  (prior_considered n parameters = true ->
   exists pw, prior_weight parameters = Some pw /\ 0 <= pw /\ (n = 0%nat -> 0 < pw)) ->
  exists a h',
    _calculate_weights pre n parameters h = Ok (a, h')
    /\ Forall Float64.nonneg (read h' a)
    /\ Float64.sum (read h' a) = Float64.Fin 1
    /\ length (read h' a)
       = (n + if prior_considered n parameters then 1 else 0)%nat.
Proof.
  intros Hpre Hlen Hnn Hpos Hprior.
  set (w := source_weights pre n parameters h) in *.
  assert (Hv : ~ invalid_weights w).
  { apply valid_not_invalid; [done|]. rewrite Hlen. exact Hpos. }
  destruct (initial_weights_succeeds _ _ _ _ Hv) as (a & h1 & Hi).
  pose proof (initial_weights_read _ _ _ _ _ _ Hi) as Hr. fold w in Hr.
  destruct (prior_considered n parameters) eqn:Hp.
  - destruct (Hprior eq_refl) as (pw & Hpw & Hpw0 & Hpwn).
    rewrite (calculate_weights_fresh _ _ _ _ _ _ Hp Hi), Hr, Hpw, <- Hlen,
      broadcast_to_same
      by (eapply initial_weights_allocated; [exact Hpre | exact Hi]).
    cbn [mbind result_bind Float64.of_option].
    eexists _, _. split; [reflexivity|].
    erewrite read_allocated;
      [| cbn [base]; apply lookup_insert_eq
       | cbn [size]; rewrite length_normalize, length_app; cbn; lia].
    rewrite length_normalize, length_app. cbn [length].
    split; [|split; [|lia]]; apply normalize_valid.
    + apply Forall_app. split; [done|]. constructor; [exact Hpw0 | constructor].
    + apply positive_sum_snoc; try done.
      * intros Hw. apply Hpwn. rewrite <- Hlen, Hw. done.
      * intros Hw. apply Hpos. rewrite <- Hlen. destruct w; [done | cbn; lia].
    + apply Forall_app. split; [done|]. constructor; [exact Hpw0 | constructor].
    + apply positive_sum_snoc; try done.
      * intros Hw. apply Hpwn. rewrite <- Hlen, Hw. done.
      * intros Hw. apply Hpos. rewrite <- Hlen. destruct w; [done | cbn; lia].
  - assert (Hn : (0 < n)%nat).
    { unfold prior_considered in Hp. case_decide; [done | lia]. }
    rewrite (calculate_weights_in_place _ _ _ _ _ _ Hp Hi).
    eexists _, _. split; [reflexivity|].
    assert (Hsz : length (read h1 a) = size a).
    { rewrite Hr, Hlen. destruct pre as [p|].
      - cbn in Hi. injection Hi as <- <-. destruct (Hpre p eq_refl) as (l & Hl & Hs).
        cbn [slice_to size]. subst w. cbn in Hlen.
        rewrite length_take, length_read in Hlen. lia.
      - rewrite initial_weights_computed in Hi.
        destruct (check_weights _); [|discriminate]. injection Hi as <- <-.
        cbn [slice_to size]. subst w. cbn in Hlen.
        rewrite length_take in Hlen. lia. }
    rewrite read_idiv, Hr by exact Hsz.
    change (map _ w) with (normalize w).
    rewrite length_normalize. split; [|split; [|lia]]; apply normalize_valid; auto.
Qed.

Lemma calculate_weights_normalized_witness :
  exists a h',
    _calculate_weights None 2 uniform_parameters ∅ = Ok (a, h')
    /\ Forall Float64.nonneg (read h' a)
    /\ Float64.sum (read h' a) = Float64.Fin 1
    /\ length (read h' a)
       = (2 + if prior_considered 2 uniform_parameters then 1 else 0)%nat.
Proof.
  apply (calculate_weights_normalized None 2 uniform_parameters ∅).
  - discriminate.
  - reflexivity.
  - cbn. repeat (constructor; [cbn; lra|]). constructor.
  - intros _. cbn. lra.
  - intros _. exists 1. split; [reflexivity|]. split; [lra|]. discriminate.
Defined.

(** C1, as stated, fails: a valid weight function and a prior weight that
    is given, but negative, make a weight vector with a negative entry. *)
Lemma calculate_weights_negative_prior :
  let w := take 1 (weights negative_prior_parameters 1) in
  Forall Float64.nonneg w
  /\ positive (Float64.sum w)
  /\ is_Some (prior_weight negative_prior_parameters)
  /\ exists a h',
       _calculate_weights None 1 negative_prior_parameters ∅ = Ok (a, h')
       /\ read h' a = [Float64.Fin 2; Float64.Fin (-1)]
       /\ ~ Forall Float64.nonneg (read h' a).
Proof.
  cbn zeta.
  assert (Hnn : Forall Float64.nonneg (take 1 (weights negative_prior_parameters 1))).
  { cbn. constructor; [cbn; lra | constructor]. }
  assert (Hpos : positive (Float64.sum (take 1 (weights negative_prior_parameters 1)))).
  { cbn. lra. }
  repeat split; [exact Hnn | exact Hpos | by eexists |].
  rewrite calculate_weights_computed.
  assert (Hc : check_weights (take 1 (weights negative_prior_parameters 1)) = Ok tt).
  { apply check_weights_ok, valid_not_invalid; [exact Hnn | intros _; exact Hpos]. }
  rewrite Hc. cbn [mbind result_bind].
  eexists _, _. split; [reflexivity|].
  assert (Hr : forall (h : heap) (b : addr),
             read (<[b := normalize [Float64.Fin 1; Float64.Fin (- (1 / 2))]]> h)
               {| base := b; size := 2 |}
             = [Float64.Fin 2; Float64.Fin (-1)]).
  { intros h b. erewrite read_allocated; [| cbn [base]; apply lookup_insert_eq | done].
    unfold normalize. cbn [Float64.sum foldr Float64.add Float64.zero map].
    rewrite !div_Fin by lra. repeat f_equal; field. }
  split; [apply Hr|]. cbn [prior_weight negative_prior_parameters Float64.of_option].
  change (replicate 1 (Float64.Fin 1) ++ [Float64.Fin (- (1 / 2))])
    with [Float64.Fin 1; Float64.Fin (- (1 / 2))].
  change (1 + 1)%nat with 2%nat. rewrite Hr.
  intros H. apply Forall_cons_1 in H as [_ H]. apply Forall_cons_1 in H as [H _].
  cbn in H. lra.
Qed.

(** ** Aliasing of the predetermined weights *)

(** C10.  With predetermined weights and no prior ([consider_prior] false
    and at least one observation) the returned vector is the caller's array
    and that array has been divided by its sum in place; when the prior is
    considered ([consider_prior] true or no observation) the returned vector
    is a new array and the caller's array is as it was. *)
Theorem calculate_weights_aliasing (parameters : _ParzenEstimatorParameters)
    (h : heap) (p : ndarray) (buf : list Float64.t) :
  h !! base p = Some buf ->
  size p = length buf ->
  exists a h',
    _calculate_weights (Some p) (length buf) parameters h = Ok (a, h')
    /\ if prior_considered (length buf) parameters
       then base a <> base p /\ h' !! base p = Some buf
       else base a = base p /\ h' !! base p = Some (normalize buf).
Proof.
  intros Hbuf Hsize.
  assert (Hi : initial_weights (Some p) (length buf) parameters h
               = Ok (slice_to (length buf) p, h)) by reflexivity.
  assert (Hr : read h (slice_to (length buf) p) = buf).
  { rewrite read_slice_to, (read_allocated _ _ _ Hbuf Hsize). apply firstn_all. }
  destruct (prior_considered (length buf) parameters) eqn:Hp.
  - rewrite (calculate_weights_fresh _ _ _ _ _ _ Hp Hi), Hr, broadcast_to_same
      by (cbn [slice_to base]; by rewrite Hbuf).
    cbn [mbind result_bind].
    assert (Hne : fresh (dom h) <> base p).
    { intros Heq. by rewrite <- Heq, fresh_unallocated in Hbuf. }
    eexists _, _. split; [reflexivity|]. split; [exact Hne|].
    by rewrite lookup_insert_ne.
  - rewrite (calculate_weights_in_place _ _ _ _ _ _ Hp Hi), Hr.
    eexists _, _. split; [reflexivity|]. split; [reflexivity|].
    unfold idiv, write. cbn [slice_to base size].
    rewrite lookup_insert_eq, Hr, Hsize, Nat.min_id. f_equal.
    unfold buffer. rewrite Hbuf. cbn [default].
    rewrite drop_all. apply app_nil_r.
Qed.

Lemma calculate_weights_aliasing_witness :
  exists a h',
    _calculate_weights (Some caller_weights) 2 no_prior_parameters caller_heap
      = Ok (a, h')
    /\ base a = base caller_weights
    /\ h' !! base caller_weights = Some (normalize [Float64.Fin 1; Float64.Fin 3]).
Proof.
  apply (calculate_weights_aliasing no_prior_parameters caller_heap caller_weights
           [Float64.Fin 1; Float64.Fin 3]).
  - apply lookup_singleton_eq.
  - reflexivity.
Defined.

(** The caller's [[1, 3]] has become [[1/4, 3/4]]. *)
Lemma normalize_changes_weights :
  normalize [Float64.Fin 1; Float64.Fin 3] = [Float64.Fin (1 / 4); Float64.Fin (3 / 4)]
  /\ normalize [Float64.Fin 1; Float64.Fin 3] <> [Float64.Fin 1; Float64.Fin 3].
Proof.
  assert (He : normalize [Float64.Fin 1; Float64.Fin 3]
               = [Float64.Fin (1 / 4); Float64.Fin (3 / 4)]).
  { unfold normalize. cbn [Float64.sum foldr Float64.add Float64.zero map].
    rewrite !div_Fin by lra. repeat f_equal; lra. }
  split; [exact He|]. rewrite He. intros [= H _]. lra.
Qed.

(** ** Rounding and clipping *)

Lemma Int_part_IZR (k : Z) : Int_part (IZR k) = k.
Proof. symmetry. apply Int_part_spec. lra. Qed.

Lemma np_round_IZR (k : Z) : np_round (IZR k) = IZR k.
Proof.
  unfold np_round. rewrite Int_part_IZR.
  rewrite decide_True by lra. reflexivity.
Qed.

Lemma np_round_integer (x : R) : exists k : Z, np_round x = IZR k.
Proof. unfold np_round. repeat case_match; eauto. Qed.

Lemma np_round_near (x : R) : x - 1 / 2 <= np_round x <= x + 1 / 2.
Proof.
  unfold np_round. destruct (base_Int_part x) as [Hle Hgt].
  repeat case_match; rewrite ?plus_IZR; lra.
Qed.

Lemma np_clip_bounds (x lo hi : R) : lo <= hi -> lo <= np_clip x lo hi <= hi.
Proof.
  intros Hlh. unfold np_clip, Rmin, Rmax.
  repeat destruct (Rle_dec _ _); lra.
Qed.

Lemma np_clip_inside (x lo hi : R) : lo <= x <= hi -> np_clip x lo hi = x.
Proof.
  intros Hx. unfold np_clip, Rmin, Rmax.
  repeat destruct (Rle_dec _ _); lra.
Qed.

Lemma np_clip_cases (x lo hi : R) :
  lo <= hi ->
  np_clip x lo hi = lo \/ np_clip x lo hi = hi \/ (np_clip x lo hi = x /\ lo <= x <= hi).
Proof.
  intros Hlh. unfold np_clip, Rmin, Rmax.
  repeat destruct (Rle_dec _ _); lra.
Qed.

(** Clipping into an interval that holds [y] brings no value further from
    [y]. *)
Lemma np_clip_closer (x y lo hi e : R) :
  lo <= y <= hi -> y - e <= x <= y + e -> y - e <= np_clip x lo hi <= y + e.
Proof.
  intros Hy Hx. unfold np_clip, Rmin, Rmax.
  repeat destruct (Rle_dec _ _); lra.
Qed.

Lemma on_grid_low (low step : R) : on_grid low step low.
Proof. exists 0%Z. split; [lia | lra]. Qed.

(** A rounded multiple of a positive step that is not below [low] is on the
    grid. *)
Lemma on_grid_round (low q t : R) :
  0 < q -> low <= np_round t * q + low -> on_grid low q (np_round t * q + low).
Proof.
  intros Hq Hlow. destruct (np_round_integer t) as [k Hk]. rewrite Hk in *.
  exists k. split; [|lra].
  apply le_IZR. assert (0 <= IZR k * q) by lra.
  destruct (Rle_dec 0 (IZR k)) as [?|Hneg]; [done|].
  assert (IZR k * q < 0) by nra. lra.
Qed.

(** Snapping and clipping lands on the grid and within the bounds. *)
Lemma snap_and_clip_on_grid (low high q x : R) :
  low <= high -> 0 < q -> on_grid low q high ->
  low <= snap_and_clip low high q x <= high
  /\ on_grid low q (snap_and_clip low high q x).
Proof.
  intros Hlh Hq Hhigh. unfold snap_and_clip.
  split; [by apply np_clip_bounds|].
  destruct (np_clip_cases (np_round ((x - low) / q) * q + low) low high Hlh)
    as [-> | [-> | [-> [Hlo _]]]].
  - apply on_grid_low.
  - exact Hhigh.
  - by apply on_grid_round.
Qed.

(** It moves a value of the interval by half a step at most. *)
Lemma snap_and_clip_near (low high q x : R) :
  0 < q -> low <= x <= high ->
  x - q / 2 <= snap_and_clip low high q x <= x + q / 2.
Proof.
  intros Hq Hx. unfold snap_and_clip. apply np_clip_closer; [exact Hx|].
  pose proof (np_round_near ((x - low) / q)) as [Hl Hu].
  set (r := np_round ((x - low) / q)) in *.
  assert (Ht : (x - low) / q * q = x - low) by (field; lra).
  split.
  - apply (Rmult_le_compat_r q) in Hl; [|lra]. lra.
  - apply (Rmult_le_compat_r q) in Hu; [|lra]. lra.
Qed.

(** It leaves a grid point of the interval where it is. *)
Lemma snap_and_clip_fixed (low high q x : R) :
  0 < q -> low <= x <= high -> on_grid low q x -> snap_and_clip low high q x = x.
Proof.
  intros Hq Hx (k & Hk & ->). unfold snap_and_clip.
  replace ((low + IZR k * q - low) / q) with (IZR k) by (field; lra).
  rewrite np_round_IZR, (Rplus_comm _ low). apply np_clip_inside. lra.
Qed.

Lemma np_clip_IZR (a lo hi : Z) :
  np_clip (IZR a) (IZR lo) (IZR hi) = IZR (Z.min (Z.max a lo) hi).
Proof.
  unfold np_clip, Rmin, Rmax.
  destruct (Rle_dec (IZR a) (IZR lo)) as [H1|H1];
    [apply le_IZR in H1 | apply Rnot_le_lt, lt_IZR in H1];
    (destruct (Rle_dec _ (IZR hi)) as [H2|H2];
     [apply le_IZR in H2 | apply Rnot_le_lt, lt_IZR in H2]);
    f_equal; lia.
Qed.

Lemma exp_le (x y : R) : x <= y -> exp x <= exp y.
Proof.
  intros [Hlt | ->]; [|lra]. left. by apply exp_increasing.
Qed.

Lemma ln_le_compat (x y : R) : 0 < x -> x <= y -> ln x <= ln y.
Proof.
  intros Hx [Hlt | ->]; [|lra]. left. by apply ln_increasing.
Qed.

(** ** The inverse transform of a logarithmic parameter *)

(** C5 (as amended).  For a float parameter on a logarithmic scale the
    inverse transform only exponentiates.  For an integer parameter on a
    logarithmic scale it exponentiates, rounds to the nearest integer and
    clips into [[low, high]], so the result is an integer of that range. *)
Theorem from_uniform_log (flow fhigh : R) (fstep : option R) (low high step : Z) (x : R) :
  (low <= high)%Z ->
  from_uniform (FloatDistribution flow fhigh true fstep) x = exp x
  /\ from_uniform (IntDistribution low high true step) x
     = np_clip (np_round (exp x)) (IZR low) (IZR high)
  /\ exists k : Z,
       (low <= k <= high)%Z
       /\ from_uniform (IntDistribution low high true step) x = IZR k.
Proof.
  intros Hlh. split; [reflexivity|]. split; [reflexivity|].
  cbn. destruct (np_round_integer (exp x)) as [k ->].
  rewrite np_clip_IZR. eexists. split; [|reflexivity]. lia.
Qed.

Lemma from_uniform_log_witness :
  from_uniform (FloatDistribution 1 10 true None) 0 = exp 0
  /\ from_uniform (IntDistribution 1 10 true 1) 0
     = np_clip (np_round (exp 0)) (IZR 1) (IZR 10)
  /\ exists k : Z,
       (1 <= k <= 10)%Z /\ from_uniform (IntDistribution 1 10 true 1) 0 = IZR k.
Proof.
  apply (from_uniform_log 1 10 None 1 10 1 0). lia.
Defined.

(** C5, as stated, fails for an integer parameter: the working value
    [ln (9/4)] comes back as 2, not as [exp (ln (9/4)) = 9/4]. *)
Lemma from_uniform_log_int_rounds :
  is_log log_int_1_10 = true
  /\ from_uniform log_int_1_10 (ln (9 / 4)) = 2
  /\ from_uniform log_int_1_10 (ln (9 / 4)) <> exp (ln (9 / 4)).
Proof.
  assert (He : exp (ln (9 / 4)) = 9 / 4) by (apply exp_ln; lra).
  assert (Hr : from_uniform log_int_1_10 (ln (9 / 4)) = 2).
  { cbn. rewrite He. unfold np_round.
    replace (Int_part (9 / 4)) with 2%Z by (apply Int_part_spec; lra).
    rewrite decide_True by lra. apply np_clip_inside. lra. }
  split; [reflexivity|]. split; [exact Hr|]. rewrite Hr, He. lra.
Qed.

(** ** The transform and its inverse *)

Lemma int_grid_high (low high step : Z) :
  (low <= high)%Z -> (0 < step)%Z -> (step | high - low)%Z ->
  on_grid (IZR low) (IZR step) (IZR high).
Proof.
  intros Hlh Hs [m Hm]. exists m. split; [nia|].
  rewrite <- mult_IZR, <- plus_IZR. f_equal. lia.
Qed.

Lemma on_grid_IZR (low k : Z) : (low <= k)%Z -> on_grid (IZR low) (IZR 1) (IZR k).
Proof.
  intros Hk. exists (k - low)%Z. split; [lia|].
  rewrite <- mult_IZR, <- plus_IZR. f_equal. lia.
Qed.

(** Rounding and clipping leaves an integer of the range, on the grid of
    step one. *)
Lemma round_and_clip_on_grid (low high : Z) (x : R) :
  (low <= high)%Z ->
  let y := np_clip (np_round x) (IZR low) (IZR high) in
  IZR low <= y <= IZR high /\ on_grid (IZR low) (IZR 1) y.
Proof.
  intros Hlh y. split; [apply np_clip_bounds; by apply IZR_le|].
  subst y. destruct (np_round_integer x) as [k ->].
  rewrite np_clip_IZR. apply on_grid_IZR. lia.
Qed.

(** Without a logarithm and without a step, and for a categorical
    parameter, the two transforms are the identity. *)
Lemma roundtrip_identity (distribution : BaseDistribution) (x : R) :
  is_log distribution = false ->
  step_of distribution = None ->
  to_uniform distribution x = x
  /\ from_uniform distribution x = x.
Proof.
  destruct distribution as [low high log step | low high log step | choices];
    cbn; intros Hlog Hstep; subst; try discriminate; done.
Qed.

(** C4.  For a value [x] within the bounds of a well-formed parameter,
    [_transform_to_uniform] then [_transform_from_uniform] gives [x] back
    where the parameter has no step (exactly so without a logarithm and for
    a categorical parameter, where both transforms are the identity); where
    it has a step, they give a grid point within the bounds, at most half a
    step from [x], and [x] itself when [x] is on the grid. *)
Theorem roundtrip (distribution : BaseDistribution) (x : R) :
  well_formed distribution ->
  within_bounds distribution x ->
  let y := from_uniform distribution (to_uniform distribution x) in
  match step_of distribution with
  | None => y = x
  | Some q =>
      within_bounds distribution y
      /\ on_declared_grid distribution y
      /\ x - q / 2 <= y <= x + q / 2
      /\ (on_declared_grid distribution x -> y = x)
  end.
Proof.
  destruct distribution as [low high [] step | low high [] step | choices];
    cbn -[snap_and_clip]; unfold on_declared_grid; cbn -[snap_and_clip].
  - (* float, log *)
    intros (_ & Hlog & _) Hx. destruct (Hlog eq_refl) as [Hlow ->].
    apply exp_ln. lra.
  - (* float *)
    intros (Hlh & _ & Hstep) Hx. destruct step as [q|]; [|reflexivity].
    destruct (Hstep q eq_refl) as [Hq Hhigh].
    destruct (snap_and_clip_on_grid low high q x Hlh Hq Hhigh) as [Hb Hg].
    repeat split; try tauto.
    + by apply snap_and_clip_near.
    + by apply snap_and_clip_near.
    + by apply snap_and_clip_fixed.
  - (* integer, log *)
    intros (Hlh & Hlog & _) Hx. destruct (Hlog eq_refl) as [Hlow ->].
    assert (H1 : 1 <= IZR low) by by apply IZR_le.
    rewrite exp_ln by lra.
    destruct (round_and_clip_on_grid low high x Hlh) as [Hb Hg].
    repeat split; try tauto.
    + apply np_clip_closer; [exact Hx|]. pose proof (np_round_near x). lra.
    + apply np_clip_closer; [exact Hx|]. pose proof (np_round_near x). lra.
    + intros (k & Hk & ->). rewrite Rmult_1_r, <- plus_IZR in *.
      rewrite np_round_IZR. by apply np_clip_inside.
  - (* integer *)
    intros (Hlh & _ & Hs & Hdiv) Hx.
    assert (Hq : 0 < IZR step) by by apply IZR_lt.
    assert (Hlh' : IZR low <= IZR high) by by apply IZR_le.
    pose proof (int_grid_high low high step Hlh Hs Hdiv) as Hhigh.
    destruct (snap_and_clip_on_grid _ _ _ x Hlh' Hq Hhigh) as [Hb Hg].
    repeat split; try tauto.
    + by apply snap_and_clip_near.
    + by apply snap_and_clip_near.
    + by apply snap_and_clip_fixed.
  - (* categorical *)
    reflexivity.
Qed.

Lemma roundtrip_witness :
  let d := FloatDistribution 0 1 false (Some (1 / 4)) in
  let y := from_uniform d (to_uniform d (3 / 10)) in
  within_bounds d y
  /\ on_declared_grid d y
  /\ 3 / 10 - 1 / 4 / 2 <= y <= 3 / 10 + 1 / 4 / 2
  /\ (on_declared_grid d (3 / 10) -> y = 3 / 10).
Proof.
  apply (roundtrip (FloatDistribution 0 1 false (Some (1 / 4))) (3 / 10)).
  - cbn. split; [lra|]. split; [discriminate|].
    intros q [= <-]. split; [lra|]. exists 4%Z. split; [lia | lra].
  - cbn. lra.
Defined.

(** ** Dictionaries *)

Lemma dict_mapM_lookup {V W} (f : string -> V -> result W) (d : dict V) (d' : dict W)
    (k : string) (w : W) :
  dict_mapM f d = Ok d' ->
  dict_lookup d' k = Some w ->
  exists v, dict_lookup d k = Some v /\ f k v = Ok w.
Proof.
  revert d'. induction d as [|[k0 v0] d IH]; intros d'; cbn.
  - intros [= <-]. discriminate.
  - destruct (f k0 v0) as [w0|] eqn:Hf; [|discriminate]. cbn.
    destruct (dict_mapM f d) as [d''|]; [|discriminate]. cbn.
    intros [= <-]. cbn. case_decide as Hk.
    + subst k0. intros [= <-]. eauto.
    + intros Hl. by apply (IH d'').
Qed.

Lemma dict_mapM_succeeds {V W} (f : string -> V -> result W) (d : dict V) :
  Forall (fun kv => exists w, f kv.1 kv.2 = Ok w) d ->
  exists d', dict_mapM f d = Ok d'.
Proof.
  induction 1 as [|[k v] d [w Hw] _ [d' IH]]; cbn in *.
  - eauto.
  - rewrite Hw, IH. cbn. eauto.
Qed.

Lemma dict_lookup_In {V} (d : dict V) (k : string) (v : V) :
  dict_lookup d k = Some v -> In (k, v) d.
Proof.
  induction d as [|[k0 v0] d IH]; cbn; [discriminate|].
  case_decide as Hk.
  - intros [= <-]. subst k0. by left.
  - intros Hl. right. by apply IH.
Qed.

Lemma dict_mapM_lookup_2 {V W} (f : string -> V -> result W) (d : dict V) (d' : dict W)
    (k : string) (v : V) :
  dict_mapM f d = Ok d' ->
  dict_lookup d k = Some v ->
  exists w, dict_lookup d' k = Some w /\ f k v = Ok w.
Proof.
  revert d'. induction d as [|[k0 v0] d IH]; intros d'; cbn; [discriminate|].
  destruct (f k0 v0) as [w0|] eqn:Hf; [|discriminate]. cbn.
  destruct (dict_mapM f d) as [d''|]; [|discriminate]. cbn.
  intros [= <-]. cbn. case_decide as Hk.
  - subst k0. intros [= <-]. eauto.
  - intros Hl. by apply (IH d'').
Qed.

Lemma dict_mapM_In {V W} (f : string -> V -> result W) (d : dict V) (d' : dict W)
    (k : string) (w : W) :
  dict_mapM f d = Ok d' ->
  In (k, w) d' ->
  exists v, In (k, v) d /\ f k v = Ok w.
Proof.
  revert d'. induction d as [|[k0 v0] d IH]; intros d'; cbn.
  - by intros [= <-].
  - destruct (f k0 v0) as [w0|] eqn:Hf; [|discriminate]. cbn.
    destruct (dict_mapM f d) as [d''|]; [|discriminate]. cbn.
    intros [= <-] [[= <- <-] | Hin].
    + exists v0. split; [by left | exact Hf].
    + destruct (IH d'' eq_refl Hin) as (v & Hv & Hfv). exists v. split; [by right | exact Hfv].
Qed.

Lemma dict_mapM_Forall2 {V W} (f : string -> V -> result W) (d : dict V) (d' : dict W) :
  dict_mapM f d = Ok d' ->
  Forall2 (fun kv kw => kw.1 = kv.1 /\ f kv.1 kv.2 = Ok kw.2) d d'.
Proof.
  revert d'. induction d as [|[k v] d IH]; intros d'; cbn.
  - intros [= <-]. constructor.
  - destruct (f k v) as [w|] eqn:Hf; [|discriminate]. cbn.
    destruct (dict_mapM f d) as [d''|]; [|discriminate]. cbn.
    intros [= <-]. constructor; [done|]. by apply IH.
Qed.

Lemma dict_mapM_inv_succeeds {V W} (f : string -> V -> result W) (d : dict V) :
  succeeds (dict_mapM f d) ->
  Forall (fun kv => succeeds (f kv.1 kv.2)) d.
Proof.
  intros [d' Hd]. apply dict_mapM_Forall2 in Hd.
  induction Hd as [|kv kw d d' [_ Hf] _ IH]; constructor; [by eexists | done].
Qed.

(** ** Sampled values *)

Lemma numerical_stored_bounds (n_params : nat) (observations : list R) (low high : R)
    (step : option R) (parameters : _ParzenEstimatorParameters)
    (d : distribution_array) (x : R) :
  Ok (_calculate_numerical_distributions n_params observations low high step parameters)
  = Ok d ->
  within_stored_bounds d x ->
  low <= x <= high.
Proof.
  intros [= <-]. unfold _calculate_numerical_distributions.
  destruct step; cbn; intros (i & lo & hi & Hlo & Hhi & Hx);
    apply lookup_replicate in Hlo as [-> _];
    apply lookup_replicate in Hhi as [-> _]; exact Hx.
Qed.

(** A working value within the stored bounds comes back within the declared
    bounds and on the declared grid. *)
Lemma from_uniform_in_domain (n_params : nat) (observations : list R)
    (distribution : BaseDistribution) (parameters : _ParzenEstimatorParameters)
    (d : distribution_array) (x : R) :
  well_formed distribution ->
  _calculate_distributions n_params observations distribution parameters = Ok d ->
  within_stored_bounds d x ->
  within_bounds distribution (from_uniform distribution x)
  /\ on_declared_grid distribution (from_uniform distribution x).
Proof.
  destruct distribution as [low high [] step | low high [] step | choices];
    unfold on_declared_grid; cbn -[snap_and_clip _calculate_numerical_distributions]; [| | | |done].
  - (* float, log *)
    intros (Hlh & Hlog & _). destruct (Hlog eq_refl) as [Hlow ->]. cbn -[_calculate_numerical_distributions].
    intros Hd Hx. apply (numerical_stored_bounds _ _ _ _ _ _ _ _ Hd) in Hx.
    split; [|done]. rewrite <- (exp_ln low), <- (exp_ln high) by lra.
    split; apply exp_le; lra.
  - (* float *)
    intros (Hlh & _ & Hstep). destruct step as [q|]; cbn -[snap_and_clip _calculate_numerical_distributions].
    + destruct (Hstep q eq_refl) as [Hq Hhigh]. intros _ _.
      by apply snap_and_clip_on_grid.
    + intros Hd Hx. by apply (numerical_stored_bounds _ _ _ _ _ _ _ _ Hd) in Hx.
  - (* integer, log *)
    intros (Hlh & Hlog & _) _ _. destruct (Hlog eq_refl) as [_ ->].
    by apply round_and_clip_on_grid.
  - (* integer *)
    intros (Hlh & _ & Hs & Hdiv) _ _.
    apply snap_and_clip_on_grid;
      [by apply IZR_le | by apply IZR_lt | by apply int_grid_high].
Qed.

(** ** The constructor *)

Lemma init_inv (observations : dict (list R)) (search_space : dict BaseDistribution)
    (parameters : _ParzenEstimatorParameters) (pre : option ndarray) (h h' : heap)
    (self : _ParzenEstimator) :
  __init__ observations search_space parameters pre h = Ok (self, h') ->
  exists first w transformed_observations product_distributions,
    first_value observations = Ok first
    /\ _calculate_weights pre (length first) parameters h = Ok (w, h')
    /\ _transform_to_uniform observations search_space = Ok transformed_observations
    /\ dict_mapM (fun param distribution =>
         column ← field transformed_observations param;
         _calculate_distributions (length search_space) column distribution parameters)
         search_space = Ok product_distributions
    /\ self = {| _search_space := search_space;
                 _mixture := {| product := product_distributions;
                                mixture_weights := w |} |}.
Proof.
  unfold __init__.
  destruct (first_value observations) as [first|] eqn:Hfirst; [|discriminate].
  cbn [mbind result_bind].
  destruct (match pre with Some p => _ | None => _ end) as [[]|]; [|discriminate].
  cbn [mbind result_bind].
  destruct (_calculate_weights _ _ _ _) as [[w h1]|] eqn:Hw; [|discriminate].
  cbn [mbind result_bind].
  destruct (_transform_to_uniform _ _) as [tobs|] eqn:Ht; [|discriminate].
  cbn [mbind result_bind].
  destruct (dict_mapM _ search_space) as [prod|] eqn:Hprod; [|discriminate].
  cbn [mbind result_bind]. intros [= <- <-].
  exists first, w, tobs, prod. done.
Qed.

(** C3.  Given that the sampling primitive draws every value within the
    truncation bounds stored for its parameter, [sample] returns the columns
    the primitive drew, under their names, in their order and with as many
    values each; and every value of every column it returns is, for a
    well-formed search space, within the declared [[low, high]] of the
    parameter of that name and, for an integer or stepped parameter, on the
    declared grid [low + k * step]. *)
Theorem sample_in_domain (rng_state : Type)
    (_sample : mixture_distribution -> rng_state -> nat -> recarray)
    (observations : dict (list R)) (search_space : dict BaseDistribution)
    (parameters : _ParzenEstimatorParameters) (pre : option ndarray) (h h' : heap)
    (self : _ParzenEstimator) (rng : rng_state) (size : nat) :
  __init__ observations search_space parameters pre h = Ok (self, h') ->
  Forall (fun kd => well_formed kd.2) search_space ->
  draws_within_bounds (_mixture self) (_sample (_mixture self) rng size) ->
  exists out,
    sample rng_state _sample self rng size = Ok out
    /\ Forall2 (fun kc kc' => kc'.1 = kc.1 /\ length kc'.2 = length kc.2)
         (_sample (_mixture self) rng size) out
    /\ forall param values,
         In (param, values) out ->
         exists distribution,
           dict_lookup search_space param = Some distribution
           /\ Forall (fun v => within_bounds distribution v
                               /\ on_declared_grid distribution v) values.
Proof.
  intros (first & w & tobs & prod & _ & _ & _ & Hprod & ->)%init_inv Hwf Hdraw.
  unfold sample. cbn [_mixture _search_space product] in *.
  set (sampled := _sample _ rng size) in *.
  unfold _transform_from_uniform.
  assert (Hcol : forall name column,
             In (name, column) sampled ->
             exists distribution d column',
               dict_lookup search_space name = Some distribution
               /\ well_formed distribution
               /\ _calculate_distributions (length search_space) column'
                    distribution parameters = Ok d
               /\ Forall (within_stored_bounds d) column).
  { intros name column Hin.
    unfold draws_within_bounds in Hdraw. rewrite List.Forall_forall in Hdraw.
    destruct (Hdraw _ Hin) as (d & Hd & Hb). cbn [fst snd] in *.
    destruct (dict_mapM_lookup _ _ _ _ _ Hprod Hd) as (distribution & Hs & Hc).
    destruct (field tobs name) as [column'|]; [|discriminate].
    cbn [mbind result_bind] in Hc.
    exists distribution, d, column'. repeat split; try done.
    rewrite List.Forall_forall in Hwf.
    apply (Hwf (name, distribution)). by apply dict_lookup_In. }
  destruct (dict_mapM_succeeds
              (fun param_name samples =>
                 distribution ← dict_get search_space param_name;
                 Ok (map (from_uniform distribution) samples)) sampled) as [out Hout].
  { apply List.Forall_forall. intros [name column] Hin.
    destruct (Hcol _ _ Hin) as (distribution & _ & _ & Hs & _).
    cbn [fst snd]. unfold dict_get. rewrite Hs. cbn. eauto. }
  exists out. split; [exact Hout|]. split.
  - eapply Forall2_impl; [exact (dict_mapM_Forall2 _ _ _ Hout)|].
    intros [k c] [k' c'] [Hk Hf]. cbn [fst snd] in *. split; [exact Hk|].
    destruct (dict_get search_space k); [|discriminate].
    cbn in Hf. injection Hf as <-. apply length_map.
  - intros param values Hvalues.
    destruct (dict_mapM_In _ _ _ _ _ Hout Hvalues) as (column & Hc & Hf).
    destruct (Hcol _ _ Hc) as (distribution & d & column' & Hs & Hwfd & Hd & Hb).
    unfold dict_get in Hf. rewrite Hs in Hf. cbn in Hf. injection Hf as <-.
    exists distribution. split; [exact Hs|].
    rewrite List.Forall_forall in Hb. apply List.Forall_forall.
    intros v (x & <- & Hx)%List.in_map_iff.
    eapply from_uniform_in_domain; [exact Hwfd | exact Hd | by apply Hb].
Qed.

(** ** Success of the constructor *)

Lemma dict_lookup_keys {V} (d : dict V) (k : string) :
  In k (keys d) -> exists v, dict_lookup d k = Some v.
Proof.
  induction d as [|[k0 v0] d IH]; cbn; [done|].
  intros [-> | Hin].
  - rewrite decide_True by done. eauto.
  - case_decide; eauto.
Qed.

Lemma dict_mapM_keys {V W} (f : string -> V -> result W) (d : dict V) (d' : dict W) :
  dict_mapM f d = Ok d' -> keys d' = keys d.
Proof.
  revert d'. induction d as [|[k v] d IH]; intros d'; cbn.
  - by intros [= <-].
  - destruct (f k v); [|discriminate]. cbn.
    destruct (dict_mapM f d) as [d''|]; [|discriminate]. cbn.
    intros [= <-]. cbn. f_equal. by apply IH.
Qed.

Lemma dict_mapM_Forall {V W} (f : string -> V -> result W) (P : string * W -> Prop)
    (d : dict V) (d' : dict W) :
  dict_mapM f d = Ok d' ->
  (forall k v w, In (k, v) d -> f k v = Ok w -> P (k, w)) ->
  Forall P d'.
Proof.
  revert d'. induction d as [|[k v] d IH]; intros d'; cbn.
  - intros [= <-] _. constructor.
  - destruct (f k v) as [w|] eqn:Hf; [|discriminate]. cbn.
    destruct (dict_mapM f d) as [d''|]; [|discriminate]. cbn.
    intros [= <-] HP. constructor.
    + apply (HP k v w); [by left | exact Hf].
    + apply IH; [done|]. intros k' v' w' Hin. apply HP. by right.
Qed.

Lemma np_rec_fromarrays_inv (columns : list (string * list R)) (sa : recarray) :
  np_rec_fromarrays columns = Ok sa ->
  sa = columns
  /\ exists k c rest, columns = (k, c) :: rest
                      /\ Forall (fun kc => length kc.2 = length c) columns.
Proof.
  destruct columns as [|[k c] rest]; cbn -[forallb]; [discriminate|].
  destruct (forallb _ _) eqn:Hall; [|discriminate].
  intros [= <-]. split; [done|]. exists k, c, rest. split; [done|].
  apply List.Forall_forall. intros kc Hin.
  rewrite forallb_forall in Hall. specialize (Hall kc Hin).
  by apply bool_decide_eq_true in Hall.
Qed.

(** The columns of the transformed observations are as long as the first
    column of the observations. *)
Lemma transform_to_uniform_lengths (observations : dict (list R))
    (search_space : dict BaseDistribution) (sa : recarray) (first : list R) :
  _transform_to_uniform observations search_space = Ok sa ->
  first_value observations = Ok first ->
  Forall (fun kc => length kc.2 = length first) sa.
Proof.
  unfold _transform_to_uniform.
  destruct observations as [|[k0 c0] observations]; [discriminate|].
  cbn [dict_mapM first_value].
  destruct (dict_get search_space k0) as [d0|]; [|discriminate]. cbn [mbind result_bind].
  destruct (dict_mapM _ observations) as [rest|]; [|discriminate].
  cbn [mbind result_bind].
  intros (-> & k & c & rest' & Heq & Hall)%np_rec_fromarrays_inv Hfirst.
  injection Heq as <- <- <-. injection Hfirst as <-.
  by rewrite length_map in Hall.
Qed.

Lemma transform_to_uniform_succeeds (observations : dict (list R))
    (search_space : dict BaseDistribution) (n : nat) :
  observations <> [] ->
  Forall (fun kc => length kc.2 = n) observations ->
  (forall k, In k (keys observations) -> In k (keys search_space)) ->
  exists sa,
    _transform_to_uniform observations search_space = Ok sa
    /\ keys sa = keys observations.
Proof.
  intros Hne Hlen Hkeys. unfold _transform_to_uniform.
  destruct (dict_mapM_succeeds
              (fun param_name samples =>
                 distribution ← dict_get search_space param_name;
                 Ok (map (to_uniform distribution) samples)) observations)
    as [td Htd].
  { apply List.Forall_forall. intros [k c] Hin. cbn [fst snd].
    destruct (dict_lookup_keys search_space k) as [d Hd].
    { apply Hkeys. unfold keys. apply in_map_iff. by exists (k, c). }
    unfold dict_get. rewrite Hd. cbn. eauto. }
  rewrite Htd. cbn [mbind result_bind].
  assert (Hall : Forall (fun kc : string * list R => length kc.2 = n) td).
  { eapply dict_mapM_Forall; [exact Htd|]. intros k v w Hin. cbn beta.
    destruct (dict_get search_space k); cbn; [|discriminate]. intros [= <-].
    cbn. rewrite length_map. rewrite List.Forall_forall in Hlen.
    apply (Hlen (k, v) Hin). }
  pose proof (dict_mapM_keys _ _ _ Htd) as Hk.
  destruct td as [|[k c] td].
  { destruct observations; [done | discriminate]. }
  exists ((k, c) :: td). split; [|exact Hk].
  unfold np_rec_fromarrays.
  replace (forallb _ _) with true; [done|]. symmetry.
  apply forallb_forall. intros kc Hin. apply bool_decide_eq_true.
  rewrite List.Forall_forall in Hall. rewrite (Hall kc Hin).
  symmetry. apply (Hall (k, c)). by left.
Qed.

Lemma numerical_distributions_succeed (n_params : nat) (column : list R)
    (distribution : BaseDistribution) (parameters : _ParzenEstimatorParameters) :
  is_categorical distribution = false ->
  succeeds (_calculate_distributions n_params column distribution parameters).
Proof.
  destruct distribution; [| |discriminate]; intros _;
    unfold _calculate_distributions; destruct (working_domain _) as [[lo hi] st];
    by eexists.
Qed.

(** The constructor succeeds once the weights can be computed, the
    observations name the parameters of the search space with columns of one
    length, and a distribution can be built for each parameter. *)
Lemma init_succeeds (observations : dict (list R)) (search_space : dict BaseDistribution)
    (parameters : _ParzenEstimatorParameters) (pre : option ndarray) (h : heap)
    (first : list R) :
  first_value observations = Ok first ->
  Forall (fun kc => length kc.2 = length first) observations ->
  same_keys observations search_space ->
  (forall p, pre = Some p -> size p = length first) ->
  succeeds (_calculate_weights pre (length first) parameters h) ->
  (forall k distribution column,
     In (k, distribution) search_space ->
     length column = length first ->
     succeeds (_calculate_distributions (length search_space) column distribution
                 parameters)) ->
  succeeds (__init__ observations search_space parameters pre h).
Proof.
  intros Hfirst Hlen Hkeys Hpre [[w h1] Hw] Hbuild.
  unfold __init__. rewrite Hfirst. cbn [mbind result_bind].
  assert (Ha : match pre with
               | Some p => assert (bool_decide (length first = size p))
               | None => Ok tt
               end = Ok tt).
  { destruct pre as [p|]; [|done]. rewrite (Hpre p eq_refl).
    by rewrite bool_decide_eq_true_2. }
  rewrite Ha, Hw. cbn [mbind result_bind].
  destruct (transform_to_uniform_succeeds observations search_space (length first))
    as (sa & Hsa & Hk); [|exact Hlen|apply Hkeys|].
  { intros ->. discriminate. }
  rewrite Hsa. cbn [mbind result_bind].
  pose proof (transform_to_uniform_lengths _ _ _ _ Hsa Hfirst) as Hcols.
  destruct (dict_mapM_succeeds
              (fun param distribution =>
                 column ← field sa param;
                 _calculate_distributions (length search_space) column distribution
                   parameters) search_space) as [prod Hprod].
  { apply List.Forall_forall. intros [k distribution] Hin. cbn [fst snd].
    destruct (dict_lookup_keys sa k) as [column Hcolumn].
    { rewrite Hk. apply Hkeys. unfold keys. apply in_map_iff.
      by exists (k, distribution). }
    unfold field. rewrite Hcolumn. cbn [mbind result_bind].
    apply (Hbuild k); [exact Hin|].
    rewrite List.Forall_forall in Hcols.
    apply (Hcols (k, column)). by apply dict_lookup_In. }
  rewrite Hprod. cbn [mbind result_bind]. by eexists.
Qed.

Lemma calculate_weights_succeeds (n : nat) (parameters : _ParzenEstimatorParameters)
    (h : heap) :
  ~ invalid_weights (take n (weights parameters n)) ->
  prior_considered n parameters = false \/ length (take n (weights parameters n)) = n ->
  succeeds (_calculate_weights None n parameters h).
Proof.
  intros Hv Hb. rewrite calculate_weights_computed.
  apply check_weights_ok in Hv. rewrite Hv. cbn [mbind result_bind].
  destruct (prior_considered n parameters); [|by eexists].
  destruct Hb as [|Hb]; [done|].
  rewrite <- Hb at 1. rewrite broadcast_to_same. by eexists.
Qed.

Lemma calculate_weights_succeeds_empty (parameters : _ParzenEstimatorParameters)
    (h : heap) :
  succeeds (_calculate_weights None 0 parameters h).
Proof.
  apply calculate_weights_succeeds; [|by right].
  cbn [take]. intros [H|[[H _]|H]]; [by inversion H | by inversion H | by inversion H].
Qed.

(** ** The prior weight *)

Lemma categorical_needs_prior_weight (observations : list R) (choices : list choice)
    (parameters : _ParzenEstimatorParameters) :
  prior_weight parameters = None ->
  _calculate_categorical_distributions observations choices parameters
  = Raise AssertionError.
Proof.
  intros Hpw. unfold _calculate_categorical_distributions. rewrite Hpw.
  by case_decide; [|destruct (consider_prior parameters)].
Qed.

Lemma dict_mapM_raises {V W} (f : string -> V -> result W) (d : dict V) (e : exn) :
  Forall (fun kv => succeeds (f kv.1 kv.2) \/ f kv.1 kv.2 = Raise e) d ->
  Exists (fun kv => f kv.1 kv.2 = Raise e) d ->
  dict_mapM f d = Raise e.
Proof.
  induction 1 as [|[k v] d Hkv Hd IH]; intros Hex; [by inversion Hex|].
  cbn in *. destruct Hkv as [[w Hw] | Hr].
  - rewrite Hw. cbn. apply Exists_cons in Hex as [Hex | Hex].
    + cbn in Hex. congruence.
    + by rewrite IH.
  - by rewrite Hr.
Qed.

Lemma categorical_parameter (search_space : dict BaseDistribution) :
  no_categorical search_space = false ->
  exists k choices, In (k, CategoricalDistribution choices) search_space.
Proof.
  unfold no_categorical. induction search_space as [|[k d] l IH]; [discriminate|].
  cbn. intros [Hd | Hl]%andb_false_iff.
  - destruct d as [| |choices]; try discriminate. exists k, choices. by left.
  - destruct (IH Hl) as (k' & choices & Hin). exists k', choices. by right.
Qed.

(** C6 (as amended).  The categorical builder asserts a prior weight on both
    of its branches.  So without a prior weight the construction never
    succeeds for a search space that has a categorical parameter, whatever
    [consider_prior], the number of observations and the predetermined
    weights are, and it fails with that assertion as soon as the weights can
    be computed and the observations match the search space.  For a search
    space of numerical parameters only, with [consider_prior] false, at
    least one observation and valid weights, the construction succeeds
    without a prior weight. *)
Theorem construction_without_prior_weight (observations : dict (list R))
    (search_space : dict BaseDistribution) (parameters : _ParzenEstimatorParameters)
    (pre : option ndarray) (h : heap) :
  prior_weight parameters = None ->
  (no_categorical search_space = false ->
   ~ succeeds (__init__ observations search_space parameters pre h)
   /\ forall first,
        first_value observations = Ok first ->
        Forall (fun kc => length kc.2 = length first) observations ->
        same_keys observations search_space ->
        (forall p, pre = Some p -> size p = length first) ->
        succeeds (_calculate_weights pre (length first) parameters h) ->
        raises (__init__ observations search_space parameters pre h) AssertionError)
  /\ (no_categorical search_space = true ->
      consider_prior parameters = false ->
      forall first,
        first_value observations = Ok first ->
        (0 < length first)%nat ->
        Forall (fun kc => length kc.2 = length first) observations ->
        same_keys observations search_space ->
        ~ invalid_weights (take (length first) (weights parameters (length first))) ->
        succeeds (__init__ observations search_space parameters None h)).
Proof.
  intros Hpw. split; [intros Hcat; split|].
  - (* a categorical parameter: the constructor cannot return *)
    intros [[self h'] Hinit].
    apply init_inv in Hinit as (first & w & tobs & prod & _ & _ & _ & Hprod & _).
    destruct (categorical_parameter _ Hcat) as (k & choices & Hin).
    pose proof (dict_mapM_inv_succeeds _ _ (ex_intro _ prod Hprod)) as Hall.
    rewrite List.Forall_forall in Hall. destruct (Hall _ Hin) as [d Hd].
    cbn [fst snd] in Hd. destruct (field tobs k) as [column|]; [|discriminate].
    cbn [mbind result_bind _calculate_distributions] in Hd.
    by rewrite categorical_needs_prior_weight in Hd.
  - (* and it fails the assertion of the categorical builder *)
    intros first Hfirst Hlen Hkeys Hpre [[w h1] Hw]. unfold raises, __init__.
    rewrite Hfirst. cbn [mbind result_bind].
    assert (Ha : match pre with
                 | Some p => assert (bool_decide (length first = size p))
                 | None => Ok tt
                 end = Ok tt).
    { destruct pre as [p|]; [|done]. rewrite (Hpre p eq_refl).
      by rewrite bool_decide_eq_true_2. }
    rewrite Ha. cbn [mbind result_bind]. rewrite Hw. cbn [mbind result_bind].
    destruct (transform_to_uniform_succeeds observations search_space (length first))
      as (sa & Hsa & Hk); [|exact Hlen|apply Hkeys|].
    { intros ->. discriminate. }
    rewrite Hsa. cbn [mbind result_bind].
    assert (Hfield : forall k distribution,
               In (k, distribution) search_space ->
               exists column, field sa k = Ok column).
    { intros k distribution Hin.
      destruct (dict_lookup_keys sa k) as [column Hcolumn].
      { rewrite Hk. apply Hkeys. unfold keys. apply in_map_iff.
        by exists (k, distribution). }
      exists column. unfold field. by rewrite Hcolumn. }
    rewrite (dict_mapM_raises _ search_space AssertionError); [done| |].
    + apply List.Forall_forall. intros [k distribution] Hin. cbn [fst snd].
      destruct (Hfield _ _ Hin) as [column ->]. cbn [mbind result_bind].
      destruct (is_categorical distribution) eqn:Hd.
      * right. destruct distribution; try discriminate.
        by apply categorical_needs_prior_weight.
      * left. by apply numerical_distributions_succeed.
    + destruct (categorical_parameter _ Hcat) as (k & choices & Hin).
      apply List.Exists_exists. exists (k, CategoricalDistribution choices).
      split; [exact Hin|]. cbn [fst snd].
      destruct (Hfield _ _ Hin) as [column ->]. cbn [mbind result_bind].
      by apply categorical_needs_prior_weight.
  - (* numerical parameters only *)
    intros Hcat Hcp first Hfirst Hn Hlen Hkeys Hv.
    assert (Hp : prior_considered (length first) parameters = false).
    { unfold prior_considered. case_decide; [lia | exact Hcp]. }
    apply (init_succeeds _ _ _ _ _ first); try done.
    + by apply calculate_weights_succeeds; [|left].
    + intros k distribution column Hin _.
      apply numerical_distributions_succeed.
      unfold no_categorical in Hcat. rewrite forallb_forall in Hcat.
      specialize (Hcat _ Hin). by apply negb_true_iff in Hcat.
Qed.

Lemma no_prior_weights_valid (n : nat) :
  ~ invalid_weights (take n (weights no_prior_parameters n)).
Proof.
  cbn [weights no_prior_parameters]. rewrite firstn_all2 by by rewrite length_replicate.
  apply valid_not_invalid.
  - induction n; cbn; constructor; [cbn; lra | done].
  - rewrite length_replicate. intros Hn.
    assert (Hs : forall m, Float64.sum (replicate m (Float64.Fin 1)) = Float64.Fin (INR m)).
    { induction m as [|m IH]; [done|].
      change (Float64.sum (replicate (S m) (Float64.Fin 1)))
        with (Float64.add (Float64.Fin 1) (Float64.sum (replicate m (Float64.Fin 1)))).
      rewrite IH, S_INR. cbn. f_equal. lra. }
    rewrite Hs. cbn. by apply lt_0_INR.
Qed.

Lemma construction_without_prior_weight_witness :
  (~ succeeds (__init__ abc_no_observations abc_space null_prior_parameters None ∅)
   /\ raises (__init__ abc_no_observations abc_space null_prior_parameters None ∅)
        AssertionError)
  /\ succeeds (__init__ unit_observations unit_space no_prior_parameters None ∅).
Proof.
  split.
  - destruct (construction_without_prior_weight abc_no_observations abc_space
                null_prior_parameters None ∅ eq_refl) as [Hcat _].
    destruct (Hcat eq_refl) as [Hnever Hraises]. split; [exact Hnever|].
    apply (Hraises []).
    + reflexivity.
    + repeat constructor.
    + intros k. reflexivity.
    + discriminate.
    + apply calculate_weights_succeeds_empty.
  - destruct (construction_without_prior_weight unit_observations unit_space
                no_prior_parameters None ∅ eq_refl) as [_ Hnum].
    apply (Hnum eq_refl eq_refl [1 / 2]).
    + reflexivity.
    + cbn. lia.
    + repeat constructor.
    + intros k. reflexivity.
    + apply no_prior_weights_valid.
Defined.

(** C6, as stated, fails: with a categorical parameter, [consider_prior]
    false, one observation and no prior weight, the constructor fails the
    assertion of the categorical builder. *)
Lemma categorical_construction_fails :
  consider_prior no_prior_parameters = false
  /\ prior_weight no_prior_parameters = None
  /\ first_value abc_observations = Ok [0]
  /\ raises (__init__ abc_observations abc_space no_prior_parameters None ∅)
       AssertionError.
Proof.
  repeat split. unfold raises, __init__.
  cbn [first_value abc_observations mbind result_bind length].
  rewrite calculate_weights_computed.
  pose proof (no_prior_weights_valid 1) as Hv. apply check_weights_ok in Hv.
  rewrite Hv. reflexivity.
Qed.

(** ** Construction without observations *)

Lemma calculate_weights_empty (pre : option ndarray)
    (parameters : _ParzenEstimatorParameters) (h h' : heap) (w : ndarray) :
  (forall p, pre = Some p -> allocated h p) ->
  _calculate_weights pre 0 parameters h = Ok (w, h') ->
  read h' w = normalize [Float64.of_option (prior_weight parameters)].
Proof.
  intros Hpre Hrun.
  destruct (initial_weights pre 0 parameters h) as [[w0 h1]|e] eqn:Hi.
  2:{ unfold _calculate_weights in Hrun. by rewrite Hi in Hrun. }
  pose proof (initial_weights_read _ _ _ _ _ _ Hi) as Hr.
  assert (Hs : source_weights pre 0 parameters h = []) by by destruct pre.
  rewrite Hs in Hr.
  assert (Hp : prior_considered 0 parameters = true) by reflexivity.
  rewrite (calculate_weights_fresh _ _ _ _ _ _ Hp Hi), Hr in Hrun
    by (eapply initial_weights_allocated; [exact Hpre | exact Hi]).
  cbn in Hrun. injection Hrun as <- <-.
  apply read_allocated; [cbn [base]; apply lookup_insert_eq | done].
Qed.

Lemma normalize_single (pw : R) :
  pw <> 0 -> normalize [Float64.Fin pw] = [Float64.Fin 1].
Proof.
  intros Hpw. unfold normalize. cbn [Float64.sum foldr Float64.add Float64.zero map].
  rewrite div_Fin by lra. do 2 f_equal. field. exact Hpw.
Qed.

Lemma numerical_no_observations (n_params : nat) (low high : R) (step : option R)
    (parameters : _ParzenEstimatorParameters) :
  _calculate_numerical_distributions n_params [] low high step parameters
  = match step with
    | None =>
        _truncnorm_distribution [0.5 * (low + high)]
          [1.0 * (high - low + default 0 step)] [low] [high]
    | Some q =>
        _discrete_truncnorm_distribution [0.5 * (low + high)]
          [1.0 * (high - low + default 0 step)] [low] [high] [q]
    end.
Proof.
  unfold _calculate_numerical_distributions, numerical_sigmas, raw_sigmas.
  destruct (multivariate parameters), (consider_endpoints parameters), step;
    reflexivity.
Qed.

Lemma categorical_no_observations (choices : list choice)
    (parameters : _ParzenEstimatorParameters) :
  _calculate_categorical_distributions [] choices parameters
  = pw ← not_none (prior_weight parameters);
    Ok (_categorical_distribution
          [normalize_row (replicate (length choices) (pw / INR 1))]).
Proof.
  unfold _calculate_categorical_distributions.
  destruct (prior_weight parameters); reflexivity.
Qed.

Lemma np_sum_replicate (k : nat) (v : R) : np_sum (replicate k v) = INR k * v.
Proof.
  induction k as [|k IH]; [cbn; lra|].
  cbn [replicate]. rewrite np_sum_cons, IH, S_INR. lra.
Qed.

Lemma map_replicate {A B} (f : A -> B) (m : nat) (x : A) :
  map f (replicate m x) = replicate m (f x).
Proof. induction m as [|m IH]; [done|]. cbn. by rewrite IH. Qed.

(** A constant row is normalised to the uniform row. *)
Lemma normalize_row_replicate (k : nat) (v : R) :
  v <> 0 -> normalize_row (replicate k v) = replicate k (1 / INR k).
Proof.
  intros Hv. unfold normalize_row. rewrite np_sum_replicate, map_replicate.
  destruct k as [|k]; [reflexivity|].
  assert (Hk : INR (S k) <> 0) by (apply not_0_INR; lia).
  f_equal. by field.
Qed.

Lemma distributions_no_observations (n_params : nat) (distribution : BaseDistribution)
    (parameters : _ParzenEstimatorParameters) (d : distribution_array) :
  _calculate_distributions n_params [] distribution parameters = Ok d ->
  n_components d = 1%nat
  /\ prior_component distribution (prior_weight parameters) = Some d.
Proof.
  destruct distribution as [low high log step | low high log step | choices];
    unfold _calculate_distributions, prior_component.
  - destruct (working_domain _) as [[lo hi] st].
    rewrite numerical_no_observations. intros [= <-]. by destruct st.
  - destruct (working_domain _) as [[lo hi] st].
    rewrite numerical_no_observations. intros [= <-]. by destruct st.
  - rewrite categorical_no_observations.
    destruct (prior_weight parameters) as [pw|]; [|discriminate]. cbn.
    by intros [= <-].
Qed.

(** C2.  When there is no observation, the estimator the constructor
    returns has exactly one mixture component, whatever [consider_prior]
    is: its weight vector is the prior weight alone, normalised (so [[1]]
    for a prior weight that is not zero); the mixture has one distribution
    array for each parameter of the search space, under its name and in the
    order of the search space, and no other; and the distribution array of
    every parameter is the single prior component, the prior [mu] and
    [sigma] of a numerical parameter or the smoothed row of a categorical
    one. *)
Theorem no_observations_prior_component (observations : dict (list R))
    (search_space : dict BaseDistribution) (parameters : _ParzenEstimatorParameters)
    (pre : option ndarray) (h h' : heap) (self : _ParzenEstimator) :
  __init__ observations search_space parameters pre h = Ok (self, h') ->
  first_value observations = Ok [] ->
  (forall p, pre = Some p -> allocated h p) ->
  length (read h' (mixture_weights (_mixture self))) = 1%nat
  /\ read h' (mixture_weights (_mixture self))
     = normalize [Float64.of_option (prior_weight parameters)]
  /\ (forall pw, prior_weight parameters = Some pw -> pw <> 0 ->
      read h' (mixture_weights (_mixture self)) = [Float64.Fin 1])
  /\ keys (product (_mixture self)) = keys search_space
  /\ (forall param distribution,
        dict_lookup search_space param = Some distribution ->
        exists d,
          dict_lookup (product (_mixture self)) param = Some d
          /\ n_components d = 1%nat
          /\ prior_component distribution (prior_weight parameters) = Some d)
  /\ forall param d,
       dict_lookup (product (_mixture self)) param = Some d ->
       n_components d = 1%nat
       /\ exists distribution,
            dict_lookup search_space param = Some distribution
            /\ prior_component distribution (prior_weight parameters) = Some d.
Proof.
  intros (first & w & tobs & prod & Hfirst & Hw & Ht & Hprod & ->)%init_inv
    Hempty Hpre.
  rewrite Hempty in Hfirst. injection Hfirst as <-.
  cbn [_mixture mixture_weights product length] in *.
  pose proof (calculate_weights_empty _ _ _ _ _ Hpre Hw) as Hr.
  split; [by rewrite Hr|]. split; [exact Hr|]. split.
  { intros pw Hpw Hnz. rewrite Hr, Hpw. by apply normalize_single. }
  split; [exact (dict_mapM_keys _ _ _ Hprod)|].
  assert (Hbuilt : forall param distribution d,
             (column ← field tobs param;
              _calculate_distributions (length search_space) column distribution
                parameters) = Ok d ->
             n_components d = 1%nat
             /\ prior_component distribution (prior_weight parameters) = Some d).
  { intros param distribution d Hc. unfold field in Hc.
    destruct (dict_lookup tobs param) as [column|] eqn:Hcolumn; [|discriminate].
    cbn [mbind result_bind] in Hc.
    pose proof (transform_to_uniform_lengths _ _ _ _ Ht Hempty) as Hcols.
    rewrite List.Forall_forall in Hcols.
    pose proof (Hcols _ (dict_lookup_In _ _ _ Hcolumn)) as Hlen. cbn in Hlen.
    destruct column; [|discriminate].
    by apply distributions_no_observations in Hc. }
  split.
  - intros param distribution Hs.
    destruct (dict_mapM_lookup_2 _ _ _ _ _ Hprod Hs) as (d & Hd & Hc).
    exists d. split; [exact Hd|]. by apply (Hbuilt param).
  - intros param d Hd.
    destruct (dict_mapM_lookup _ _ _ _ _ Hprod Hd) as (distribution & Hs & Hc).
    destruct (Hbuilt _ _ _ Hc) as [Hn Hp].
    split; [exact Hn|]. by exists distribution.
Qed.

Lemma distributions_succeed_no_observations (n_params : nat)
    (distribution : BaseDistribution) (parameters : _ParzenEstimatorParameters) :
  is_Some (prior_weight parameters) ->
  succeeds (_calculate_distributions n_params [] distribution parameters).
Proof.
  intros [pw Hpw]. destruct (is_categorical distribution) eqn:Hc.
  - destruct distribution; try discriminate.
    unfold _calculate_distributions. rewrite categorical_no_observations, Hpw.
    by eexists.
  - by apply numerical_distributions_succeed.
Qed.

(** Without observations the constructor succeeds as soon as there is a
    prior weight. *)
Lemma init_succeeds_no_observations (observations : dict (list R))
    (search_space : dict BaseDistribution) (parameters : _ParzenEstimatorParameters)
    (h : heap) :
  first_value observations = Ok [] ->
  Forall (fun kc => kc.2 = []) observations ->
  same_keys observations search_space ->
  is_Some (prior_weight parameters) ->
  succeeds (__init__ observations search_space parameters None h).
Proof.
  intros Hfirst Hempty Hkeys Hpw.
  apply (init_succeeds _ _ _ _ _ []); try done.
  - eapply Forall_impl; [exact Hempty|]. by intros [k c] ->.
  - apply calculate_weights_succeeds_empty.
  - intros k distribution [|x column] _ Hlen; [|discriminate].
    by apply distributions_succeed_no_observations.
Qed.

Lemma no_observations_prior_component_witness :
  exists self h',
    __init__ no_observations mixed_space forced_prior_parameters None ∅ = Ok (self, h')
    /\ length (read h' (mixture_weights (_mixture self))) = 1%nat
    /\ read h' (mixture_weights (_mixture self))
       = normalize [Float64.of_option (prior_weight forced_prior_parameters)]
    /\ (forall pw, prior_weight forced_prior_parameters = Some pw -> pw <> 0 ->
        read h' (mixture_weights (_mixture self)) = [Float64.Fin 1])
    /\ keys (product (_mixture self)) = keys mixed_space
    /\ (forall param distribution,
          dict_lookup mixed_space param = Some distribution ->
          exists d,
            dict_lookup (product (_mixture self)) param = Some d
            /\ n_components d = 1%nat
            /\ prior_component distribution (prior_weight forced_prior_parameters)
               = Some d)
    /\ forall param d,
         dict_lookup (product (_mixture self)) param = Some d ->
         n_components d = 1%nat
         /\ exists distribution,
              dict_lookup mixed_space param = Some distribution
              /\ prior_component distribution (prior_weight forced_prior_parameters)
                 = Some d.
Proof.
  destruct (init_succeeds_no_observations no_observations mixed_space
              forced_prior_parameters ∅) as [[self h'] Hinit].
  - reflexivity.
  - repeat constructor.
  - intros k. cbn. tauto.
  - by eexists.
  - exists self, h'. split; [exact Hinit|].
    apply (no_observations_prior_component no_observations mixed_space
             forced_prior_parameters None ∅ h' self Hinit).
    + reflexivity.
    + discriminate.
Defined.

(** ** The stored bounds of a constructed estimator *)

Lemma init_product_lookup (observations : dict (list R))
    (search_space : dict BaseDistribution) (parameters : _ParzenEstimatorParameters)
    (pre : option ndarray) (h h' : heap) (self : _ParzenEstimator)
    (param : string) (distribution : BaseDistribution) :
  __init__ observations search_space parameters pre h = Ok (self, h') ->
  dict_lookup search_space param = Some distribution ->
  exists d column,
    dict_lookup (product (_mixture self)) param = Some d
    /\ _calculate_distributions (length search_space) column distribution parameters
       = Ok d.
Proof.
  intros (first & w & tobs & prod & _ & _ & _ & Hprod & ->)%init_inv Hs.
  destruct (dict_mapM_lookup_2 _ _ _ _ _ Hprod Hs) as (d & Hd & Hc).
  destruct (field tobs param) as [column|]; [|discriminate].
  by exists d, column.
Qed.

Lemma numerical_mus_nonempty (observations : list R) (low high : R)
    (parameters : _ParzenEstimatorParameters) :
  (0 < length (numerical_mus observations low high parameters))%nat.
Proof.
  unfold numerical_mus, numerical_prior_considered.
  case_decide as Hn; [rewrite length_app; cbn; lia|].
  destruct (consider_prior parameters); [rewrite length_app; cbn; lia | lia].
Qed.

(** A working value between the working bounds of a numerical parameter is
    within the bounds stored for its first component. *)
Lemma within_stored_bounds_intro (n_params : nat) (column : list R)
    (distribution : BaseDistribution) (parameters : _ParzenEstimatorParameters)
    (d : distribution_array) (x : R) :
  _calculate_distributions n_params column distribution parameters = Ok d ->
  (working_domain distribution).1.1 <= x <= (working_domain distribution).1.2 ->
  within_stored_bounds d x.
Proof.
  destruct distribution as [low high log step | low high log step | choices];
    unfold _calculate_distributions.
  3:{ unfold _calculate_categorical_distributions.
      destruct (decide _), (consider_prior parameters), (prior_weight parameters);
        cbn [not_none mbind result_bind]; try discriminate;
        destruct (increment_choices _ _); cbn [mbind result_bind];
        try discriminate; by intros [= <-]. }
  all: destruct (working_domain _) as [[lo hi] st]; cbn [fst snd];
    intros [= <-] Hx; unfold _calculate_numerical_distributions;
    pose proof (numerical_mus_nonempty column lo hi parameters) as Hlen;
    destruct st; cbn; exists 0%nat, lo, hi;
    (split; [by apply lookup_replicate_2 | split; [by apply lookup_replicate_2 | done]]).
Qed.

Lemma sample_in_domain_witness :
  exists self h' out,
    __init__ grid_observations grid_space no_prior_parameters None ∅ = Ok (self, h')
    /\ Forall (fun kd => well_formed kd.2) grid_space
    /\ draws_within_bounds (_mixture self) (sample_grid (_mixture self) tt 3)
    /\ sample unit sample_grid self tt 3 = Ok out
    /\ Forall2 (fun kc kc' => kc'.1 = kc.1 /\ length kc'.2 = length kc.2)
         (sample_grid (_mixture self) tt 3) out
    /\ forall param values,
         In (param, values) out ->
         exists distribution,
           dict_lookup grid_space param = Some distribution
           /\ Forall (fun v => within_bounds distribution v
                               /\ on_declared_grid distribution v) values.
Proof.
  assert (Hinit : succeeds (__init__ grid_observations grid_space
                              no_prior_parameters None ∅)).
  { apply (init_succeeds _ _ _ _ _ [4]).
    - reflexivity.
    - repeat constructor.
    - intros k. reflexivity.
    - discriminate.
    - apply calculate_weights_succeeds; [apply no_prior_weights_valid | by left].
    - intros k distribution column [[= <- <-] | [[= <- <-] | []]] _;
        by apply numerical_distributions_succeed. }
  destruct Hinit as [[self h'] Hinit].
  assert (Hwf : Forall (fun kd => well_formed kd.2) grid_space).
  { constructor; [|constructor; [|constructor]]; cbn.
    - split; [lia|]. split; [discriminate|]. split; [lia|]. by exists 5%Z.
    - split; [lra|]. split; [intros _; split; [lra | done] | discriminate]. }
  assert (Hdraw : draws_within_bounds (_mixture self) (sample_grid (_mixture self) tt 3)).
  { destruct (init_product_lookup _ _ _ _ _ _ _ "n"%string _ Hinit eq_refl)
      as (dn & cn & Hdn & Hcn).
    destruct (init_product_lookup _ _ _ _ _ _ _ "lr"%string _ Hinit eq_refl)
      as (dl & cl & Hdl & Hcl).
    constructor; [|constructor; [|constructor]]; cbn [fst snd].
    - exists dn. split; [exact Hdn|].
      repeat constructor;
        (eapply within_stored_bounds_intro; [exact Hcn | cbn; lra]).
    - exists dl. split; [exact Hdl|].
      repeat constructor;
        (eapply within_stored_bounds_intro;
           [exact Hcl | cbn; split; apply ln_le_compat; lra]). }
  destruct (sample_in_domain unit sample_grid _ _ _ _ _ _ _ tt 3 Hinit Hwf Hdraw)
    as (out & Hout & Hshape & Hprop).
  by exists self, h', out.
Defined.

(** ** The categorical table *)

Lemma astype_int_IZR (k : Z) : (0 <= k)%Z -> astype_int (IZR k) = k.
Proof.
  intros Hk. unfold astype_int. rewrite decide_True by by apply IZR_le.
  apply Int_part_IZR.
Qed.

Lemma normalize_index_in_range (k : nat) (i : Z) :
  (0 <= i < Z.of_nat k)%Z -> normalize_index k i = Ok (Z.to_nat i).
Proof. intros Hi. unfold normalize_index. by rewrite decide_True. Qed.

Lemma increment_choices_replicate (observed : list Z) (rows : nat) (row : list R) :
  Forall (fun i => (0 <= i < Z.of_nat (length row))%Z) observed ->
  (length observed <= rows)%nat ->
  increment_choices observed (replicate rows row)
  = Ok (map (fun i => alter (Rplus 1) (Z.to_nat i) row) observed
        ++ replicate (rows - length observed) row).
Proof.
  intros Hobs. revert rows.
  induction Hobs as [|i observed Hi _ IH]; intros rows Hrows.
  - cbn. by rewrite Nat.sub_0_r; destruct rows.
  - destruct rows as [|rows]; [cbn in Hrows; lia|].
    cbn [replicate increment_choices length].
    rewrite normalize_index_in_range by done. cbn [mbind result_bind].
    rewrite IH by (cbn in Hrows; lia). reflexivity.
Qed.

Lemma length_alter_row (f : R -> R) (i : nat) (row : list R) :
  length (alter f i row) = length row.
Proof. apply length_alter. Qed.

(** C8.  The categorical builder returns the table the specification
    describes, of [n + 1] rows when the prior is considered and [n]
    otherwise, each with one column per choice; with three choices, one
    observation of index 1, the prior considered and a prior weight of 1,
    the table is [[0.2, 0.6, 0.2]] for the observation, a row that sums to
    one, and the uniform [[1/3, 1/3, 1/3]] for the prior. *)
Theorem categorical_table :
  (forall (observations : list R) (choices : list choice)
          (parameters : _ParzenEstimatorParameters) (pw : R),
     prior_weight parameters = Some pw ->
     Forall (fun o => (0 <= astype_int o < Z.of_nat (length choices))%Z) observations ->
     let prior :=
       if decide (length observations = 0)%nat then true
       else consider_prior parameters in
     let table :=
       categorical_table_spec (map choice_index observations) (length choices) pw prior in
     _calculate_categorical_distributions observations choices parameters
     = Ok (_categorical_distribution table)
     /\ length table = (length observations + if prior then 1 else 0)%nat
     /\ Forall (fun row => length row = length choices) table)
  /\ _calculate_categorical_distributions [1] abc uniform_parameters
     = Ok (_categorical_distribution [[1 / 5; 3 / 5; 1 / 5]; [1 / 3; 1 / 3; 1 / 3]])
  /\ np_sum [1 / 5; 3 / 5; 1 / 5] = 1.
Proof.
  assert (Hgen : forall (observations : list R) (choices : list choice)
            (parameters : _ParzenEstimatorParameters) (pw : R),
     prior_weight parameters = Some pw ->
     Forall (fun o => (0 <= astype_int o < Z.of_nat (length choices))%Z) observations ->
     let prior :=
       if decide (length observations = 0)%nat then true
       else consider_prior parameters in
     let table :=
       categorical_table_spec (map choice_index observations) (length choices) pw prior in
     _calculate_categorical_distributions observations choices parameters
     = Ok (_categorical_distribution table)
     /\ length table = (length observations + if prior then 1 else 0)%nat
     /\ Forall (fun row => length row = length choices) table).
  { intros observations choices parameters pw Hpw Hobs prior table.
    assert (Hidx : forall v : R,
               Forall (fun i => (0 <= i < Z.of_nat (length (replicate (length choices) v)))%Z)
                 (map astype_int observations)).
    { intros v. rewrite length_replicate. apply Forall_map. exact Hobs. }
    split; [|split].
    - unfold _calculate_categorical_distributions. rewrite Hpw, length_map.
      fold prior. subst table. unfold categorical_table_spec.
      rewrite !length_map.
      destruct prior; cbn [not_none mbind result_bind].
      + rewrite increment_choices_replicate;
          [| apply Hidx | rewrite length_map; lia].
        rewrite length_map, Nat.add_sub'. cbn [mbind result_bind replicate].
        rewrite !map_map. reflexivity.
      + rewrite increment_choices_replicate;
          [| apply Hidx | rewrite length_map; lia].
        rewrite length_map, Nat.sub_diag. cbn [mbind result_bind replicate].
        rewrite !map_map. reflexivity.
    - subst table. unfold categorical_table_spec.
      rewrite !length_map, length_app, !length_map. by destruct prior.
    - subst table. unfold categorical_table_spec.
      apply Forall_map, Forall_app. split.
      + apply Forall_map, Forall_forall. intros o _. cbn.
        unfold normalize_row. by rewrite length_map, length_alter, length_replicate.
      + destruct prior; repeat constructor. cbn.
        unfold normalize_row. by rewrite length_map, length_replicate. }
  split; [exact Hgen|]. split; [|cbn; lra].
  assert (H1 : astype_int 1 = 1%Z) by (by apply (astype_int_IZR 1)).
  destruct (Hgen [1] abc uniform_parameters 1 eq_refl) as [-> _].
  { repeat constructor; rewrite H1; cbn; lia. }
  change (categorical_table_spec (map choice_index [1]) (length abc) 1 _)
    with (categorical_table_spec [choice_index 1] 3 1 true).
  unfold choice_index. rewrite H1.
  change (Z.to_nat 1) with 1%nat.
  unfold categorical_table_spec, normalize_row. simpl.
  do 2 f_equal.
  repeat match goal with
         | |- _ :: _ = _ :: _ => apply (f_equal2 cons)
         | |- [] = [] => reflexivity
         end; field.
Qed.

Lemma categorical_table_witness :
  let table := categorical_table_spec (map choice_index [0; 2]) (length abc) 1 false in
  _calculate_categorical_distributions [0; 2] abc forced_prior_parameters
  = Ok (_categorical_distribution table)
  /\ length table = 2%nat
  /\ Forall (fun row => length row = length abc) table.
Proof.
  apply (proj1 categorical_table [0; 2] abc forced_prior_parameters 1).
  - reflexivity.
  - pose proof (astype_int_IZR 0) as H0. pose proof (astype_int_IZR 2) as H2.
    repeat constructor; rewrite ?H0, ?H2; cbn; lia.
Defined.

(** ** Bandwidths *)

Lemma length_insert_sorted {A} (le : A -> A -> bool) (x : nat * A) (l : list (nat * A)) :
  length (insert_sorted le x l) = S (length l).
Proof.
  induction l as [|y l IH]; [done|]. cbn. destruct (le x.2 y.2); cbn; [done|].
  by rewrite IH.
Qed.

Lemma length_np_argsort {A} (le : A -> A -> bool) (l : list A) :
  length (np_argsort le l) = length l.
Proof.
  unfold np_argsort. rewrite length_fmap.
  rewrite <- (length_imap pair l). generalize (imap pair l). intros ps.
  induction ps as [|p ps IH]; [done|]. cbn. by rewrite length_insert_sorted, IH.
Qed.

Lemma length_take_indices (a : list R) (indices : list nat) :
  length (take_indices a indices) = length indices.
Proof. apply length_map. Qed.

Lemma length_neighbour_sigmas (consider_endpoints : bool) (low high : R)
    (step : option R) (mus : list R) :
  length (neighbour_sigmas consider_endpoints low high step mus) = length mus.
Proof.
  unfold neighbour_sigmas.
  by rewrite length_take_indices, !length_np_argsort.
Qed.

Lemma length_raw_sigmas (n_params : nat) (observations : list R) (low high : R)
    (step : option R) (parameters : _ParzenEstimatorParameters) :
  length (raw_sigmas n_params observations low high step parameters)
  = length (numerical_mus observations low high parameters).
Proof.
  unfold raw_sigmas. destruct (multivariate parameters).
  - apply length_replicate.
  - apply length_neighbour_sigmas.
Qed.

Lemma length_numerical_mus (observations : list R) (low high : R)
    (parameters : _ParzenEstimatorParameters) :
  (length observations <= length (numerical_mus observations low high parameters))%nat.
Proof.
  unfold numerical_mus. destruct (numerical_prior_considered _ _); [|done].
  rewrite length_app. lia.
Qed.

Lemma maxsigma_eq (low high : R) (step : option R) :
  maxsigma low high step = high - low + default 0 step.
Proof. unfold maxsigma, sigma_range. lra. Qed.

Lemma minsigma_eq (observations : list R) (low high : R) (step : option R)
    (parameters : _ParzenEstimatorParameters) :
  minsigma observations low high step parameters
  = if consider_magic_clip parameters
    then maxsigma low high step
         / Rmin 100 (1 + INR (length (numerical_mus observations low high parameters)))
    else EPS.
Proof.
  unfold minsigma, maxsigma. destruct (consider_magic_clip parameters); [|done].
  f_equal. f_equal; lra.
Qed.

Lemma minsigma_le_maxsigma (observations : list R) (low high : R) (step : option R)
    (parameters : _ParzenEstimatorParameters) :
  0 <= maxsigma low high step ->
  consider_magic_clip parameters = true \/ EPS <= maxsigma low high step ->
  minsigma observations low high step parameters <= maxsigma low high step.
Proof.
  intros Hpos Hmagic. rewrite minsigma_eq.
  destruct (consider_magic_clip parameters); [|by destruct Hmagic].
  set (m := Rmin 100 _).
  assert (Hm : 1 <= m).
  { subst m. apply Rmin_glb; [lra|].
    pose proof (pos_INR (length (numerical_mus observations low high parameters))).
    lra. }
  apply (Rmult_le_reg_r m); [lra|].
  unfold Rdiv. rewrite Rmult_assoc, Rinv_l by lra. nra.
Qed.

Lemma lookup_map {A B} (f : A -> B) (l : list A) (i : nat) (x : A) :
  l !! i = Some x -> map f l !! i = Some (f x).
Proof.
  revert i. induction l as [|y l IH]; intros [|i]; cbn; try discriminate.
  - by intros [= ->].
  - apply IH.
Qed.

Lemma np_clip_crossed (x lo hi : R) : hi < lo -> np_clip x lo hi = hi.
Proof.
  intros Hc. unfold np_clip. apply Rmin_right.
  pose proof (Rmax_r x lo). lra.
Qed.

(** C9 (as amended).  Every bandwidth of an observation is [np.clip] of the
    raw bandwidth with [minsigma] and [maxsigma], where
    [maxsigma = high - low + (step or 0)] and [minsigma] is
    [maxsigma / min(100, 1 + len(mus))] under the magic clip and [1e-12]
    otherwise.  It lies between the two when [minsigma <= maxsigma], which
    holds for ordered bounds under the magic clip and, without it, for a
    range of at least [1e-12]; when [maxsigma < minsigma] it is [maxsigma].
    For the bounds 0 and 1 without a step, one observation at 0.5, no prior
    and the univariate bandwidths, the bandwidth is 0.5, which is
    [maxsigma / 2]. *)
Theorem sigmas_clipped :
  (forall (n_params : nat) (observations : list R) (low high : R) (step : option R)
          (parameters : _ParzenEstimatorParameters) (i : nat),
     (i < length observations)%nat ->
     exists raw,
       raw_sigmas n_params observations low high step parameters !! i = Some raw
       /\ numerical_sigmas n_params observations low high step parameters !! i
          = Some (np_clip raw (minsigma observations low high step parameters)
                    (maxsigma low high step))
       /\ (minsigma observations low high step parameters <= maxsigma low high step ->
           minsigma observations low high step parameters
           <= np_clip raw (minsigma observations low high step parameters)
                (maxsigma low high step)
           <= maxsigma low high step)
       /\ (maxsigma low high step < minsigma observations low high step parameters ->
           np_clip raw (minsigma observations low high step parameters)
             (maxsigma low high step)
           = maxsigma low high step))
  /\ (forall (observations : list R) (low high : R) (step : option R)
             (parameters : _ParzenEstimatorParameters),
        low <= high ->
        (forall q, step = Some q -> 0 <= q) ->
        consider_magic_clip parameters = true \/ EPS <= maxsigma low high step ->
        minsigma observations low high step parameters <= maxsigma low high step)
  /\ (forall low high step, maxsigma low high step = high - low + default 0 step)
  /\ (forall observations low high step parameters,
        minsigma observations low high step parameters
        = if consider_magic_clip parameters
          then maxsigma low high step
               / Rmin 100 (1 + INR (length (numerical_mus observations low high
                                              parameters)))
          else EPS)
  /\ (forall (n_params : nat) (parameters : _ParzenEstimatorParameters),
        consider_prior parameters = false ->
        multivariate parameters = false ->
        numerical_sigmas n_params [1 / 2] 0 1 None parameters = [1 / 2]
        /\ maxsigma 0 1 None / 2 <= 1 / 2).
Proof.
  split; [|split; [|split; [exact maxsigma_eq | split; [exact minsigma_eq|]]]].
  - intros n_params observations low high step parameters i Hi.
    destruct (lookup_lt_is_Some_2
                (raw_sigmas n_params observations low high step parameters) i)
      as [raw Hraw].
    { rewrite length_raw_sigmas.
      pose proof (length_numerical_mus observations low high parameters). lia. }
    exists raw. split; [exact Hraw|]. split; [|split].
    + unfold numerical_sigmas.
      destruct (numerical_prior_considered observations parameters).
      * rewrite list_lookup_insert_ne by lia.
        by apply (lookup_map (fun s => np_clip s _ _)).
      * by apply (lookup_map (fun s => np_clip s _ _)).
    + apply np_clip_bounds.
    + apply np_clip_crossed.
  - intros observations low high step parameters Hlh Hstep Hmagic.
    apply minsigma_le_maxsigma; [|exact Hmagic].
    rewrite maxsigma_eq. destruct step as [q|]; cbn; [|lra].
    specialize (Hstep q eq_refl). lra.
  - intros n_params parameters Hcp Hmv. split; [|rewrite maxsigma_eq; cbn; lra].
    unfold numerical_sigmas, raw_sigmas, numerical_prior_considered.
    rewrite Hcp, Hmv, minsigma_eq, maxsigma_eq.
    unfold numerical_mus, numerical_prior_considered. rewrite Hcp.
    assert (Hmin : Rmin 100 (1 + INR 1) = 2).
    { cbn [INR]. apply Rmin_right. lra. }
    destruct (consider_magic_clip parameters), (consider_endpoints parameters);
      simpl; rewrite ?Hmin; unfold np_clip, EPS, Rmin, Rmax;
      repeat destruct (Rle_dec _ _); f_equal; lra.
Qed.

Lemma sigmas_clipped_witness :
  exists raw,
    raw_sigmas 1 [1 / 4; 3 / 4] 0 1 None uniform_parameters !! 0%nat = Some raw
    /\ numerical_sigmas 1 [1 / 4; 3 / 4] 0 1 None uniform_parameters !! 0%nat
       = Some (np_clip raw (minsigma [1 / 4; 3 / 4] 0 1 None uniform_parameters)
                 (maxsigma 0 1 None))
    /\ minsigma [1 / 4; 3 / 4] 0 1 None uniform_parameters
       <= np_clip raw (minsigma [1 / 4; 3 / 4] 0 1 None uniform_parameters)
            (maxsigma 0 1 None)
       <= maxsigma 0 1 None.
Proof.
  destruct sigmas_clipped as (Hclip & Hordered & _).
  destruct (Hclip 1%nat [1 / 4; 3 / 4] 0 1 None uniform_parameters 0%nat)
    as (raw & Hraw & Hsigma & Hin & _).
  - cbn. lia.
  - exists raw. split; [exact Hraw|]. split; [exact Hsigma|].
    apply Hin, Hordered.
    + lra.
    + discriminate.
    + by left.
Defined.

(** C9, as stated, fails: without the magic clip and for bounds less than
    [1e-12] apart, [minsigma] is above [maxsigma] and the clipped bandwidth
    is [maxsigma], below [minsigma].  Here the bounds are 0 and [1e-13] and
    the observation is at [5e-14]. *)
Lemma sigmas_below_minsigma :
  numerical_sigmas 1 [5e-14] 0 1e-13 None no_magic_clip_parameters = [1e-13]
  /\ minsigma [5e-14] 0 1e-13 None no_magic_clip_parameters = 1e-12
  /\ maxsigma 0 1e-13 None = 1e-13
  /\ ~ (minsigma [5e-14] 0 1e-13 None no_magic_clip_parameters <= 1e-13).
Proof.
  assert (Hmin : minsigma [5e-14] 0 1e-13 None no_magic_clip_parameters = 1e-12)
    by reflexivity.
  assert (Hmax : maxsigma 0 1e-13 None = 1e-13).
  { rewrite maxsigma_eq. cbn. lra. }
  split; [|split; [exact Hmin | split; [exact Hmax | rewrite Hmin; lra]]].
  unfold numerical_sigmas, raw_sigmas. rewrite Hmin, Hmax.
  change (numerical_prior_considered [5e-14] no_magic_clip_parameters) with false.
  change (multivariate no_magic_clip_parameters) with false.
  cbv iota.
  assert (Hraw : exists raw,
             neighbour_sigmas (consider_endpoints no_magic_clip_parameters) 0 1e-13 None
               (numerical_mus [5e-14] 0 1e-13 no_magic_clip_parameters) = [raw]).
  { eexists. reflexivity. }
  destruct Hraw as [raw ->]. cbn [map].
  rewrite np_clip_crossed by lra. reflexivity.
Qed.

(** * Further properties *)

(** ** Outcomes of the two transforms *)

(** The body of the loop of both transforms fails on a name the search
    space does not have, with [KeyError], and on nothing else. *)
Lemma transform_column_succeeds (f : BaseDistribution -> R -> R)
    (search_space : dict BaseDistribution) (k : string) (c : list R) :
  succeeds (distribution ← dict_get search_space k; Ok (map (f distribution) c))
  <-> is_Some (dict_lookup search_space k).
Proof.
  unfold dict_get. destruct (dict_lookup search_space k) as [d|]; cbn.
  - split; [by eexists | by eexists].
  - split; [by intros [? ?] | by intros [? ?]].
Qed.

Lemma transform_column_raises (f : BaseDistribution -> R -> R)
    (search_space : dict BaseDistribution) (k : string) (c : list R) :
  dict_lookup search_space k = None ->
  (distribution ← dict_get search_space k; Ok (map (f distribution) c))
  = Raise KeyError.
Proof. intros Hk. unfold dict_get. by rewrite Hk. Qed.

Lemma transform_columns_raise (f : BaseDistribution -> R -> R)
    (search_space : dict BaseDistribution) (columns : dict (list R)) :
  Exists (fun kc => dict_lookup search_space kc.1 = None) columns ->
  dict_mapM (fun k c => distribution ← dict_get search_space k;
                        Ok (map (f distribution) c)) columns
  = Raise KeyError.
Proof.
  intros Hex. apply dict_mapM_raises.
  - apply List.Forall_forall. intros [k c] _. cbn [fst snd].
    destruct (dict_lookup search_space k) as [d|] eqn:Hk.
    + left. apply transform_column_succeeds. by rewrite Hk.
    + right. by apply transform_column_raises.
  - eapply List.Exists_impl; [|exact Hex]. intros [k c] Hk.
    by apply transform_column_raises.
Qed.

Lemma transform_columns_succeed (f : BaseDistribution -> R -> R)
    (search_space : dict BaseDistribution) (columns : dict (list R)) :
  Forall (known search_space) columns ->
  exists out,
    dict_mapM (fun k c => distribution ← dict_get search_space k;
                          Ok (map (f distribution) c)) columns = Ok out
    /\ Forall2 (transformed_by f search_space) columns out.
Proof.
  intros Hknown.
  destruct (dict_mapM_succeeds
              (fun k c => distribution ← dict_get search_space k;
                          Ok (map (f distribution) c)) columns) as [out Hout].
  { eapply Forall_impl; [exact Hknown|]. intros [k c] Hk.
    by apply transform_column_succeeds. }
  exists out. split; [exact Hout|].
  apply dict_mapM_Forall2 in Hout.
  eapply Forall2_impl; [exact Hout|].
  intros [k c] [k' c'] [Hk Hf]. cbn [fst snd] in *. split; [exact Hk|].
  unfold dict_get in *. cbn [fst snd].
  unfold transformed_by, dict_get in *. cbn [fst snd].
  destruct (dict_lookup search_space k) as [d|]; [|discriminate].
  cbn in Hf. injection Hf as <-. by exists d.
Qed.

Lemma known_or_unknown {V} (search_space : dict BaseDistribution) (columns : dict V) :
  Forall (known search_space) columns \/ Exists (unknown search_space) columns.
Proof.
  induction columns as [|[k c] columns [IH|IH]].
  - left. constructor.
  - unfold known, unknown. destruct (dict_lookup search_space k) as [d|] eqn:Hk.
    + left. constructor; [cbn; by rewrite Hk | done].
    + right. by left.
  - right. by right.
Qed.

Lemma Forall2_transformed_lengths (f : BaseDistribution -> R -> R)
    (search_space : dict BaseDistribution) (columns out : dict (list R)) :
  Forall2 (transformed_by f search_space) columns out ->
  Forall2 (fun kc kc' => kc'.1 = kc.1 /\ length kc'.2 = length kc.2) columns out.
Proof.
  intros H. eapply Forall2_impl; [exact H|].
  intros kc kc' (Hk & d & _ & ->). split; [done|]. apply length_map.
Qed.

(** X1.  Every outcome of [_transform_to_uniform] and its cause: [KeyError] for
    samples of a parameter the search space does not have, [IndexError] for
    no samples at all, [ValueError] for columns of different lengths, and
    otherwise the columns under their names and in their order, those of a
    logarithmic parameter mapped through the logarithm. *)
Theorem transform_to_uniform_outcome (samples_dict : dict (list R))
    (search_space : dict BaseDistribution) :
  match _transform_to_uniform samples_dict search_space with
  | Ok sa =>
      samples_dict <> []
      /\ Forall2 (transformed_by to_uniform search_space) samples_dict sa
      /\ exists n, Forall (fun kc => length kc.2 = n) samples_dict
  | Raise KeyError => Exists (unknown search_space) samples_dict
  | Raise IndexError => samples_dict = []
  | Raise ValueError =>
      Forall (known search_space) samples_dict
      /\ exists first,
           first_value samples_dict = Ok first
           /\ Exists (fun kc => length kc.2 <> length first) samples_dict
  | Raise _ => False
  end.
Proof.
  unfold _transform_to_uniform.
  destruct (known_or_unknown search_space samples_dict) as [Hknown|Hunknown].
  2:{ by rewrite transform_columns_raise. }
  destruct (transform_columns_succeed to_uniform _ _ Hknown) as (out & -> & Hout).
  cbn [mbind result_bind].
  pose proof (Forall2_transformed_lengths _ _ _ _ Hout) as Hlen.
  destruct Hout as [|[k c] [k' c'] samples_dict out Hhead Hout]; [done|].
  apply Forall2_cons in Hlen as [[_ Hc] Hlen]. cbn [fst snd] in Hc.
  unfold np_rec_fromarrays.
  destruct (forallb _ _) eqn:Hall.
  - split; [done|]. split; [by constructor|]. exists (length c).
    rewrite forallb_forall in Hall.
    constructor; [done|].
    clear -Hall Hlen Hc. induction Hlen as [|kc kc' l l' [_ Hkc] _ IH]; [done|].
    constructor.
    + rewrite <- Hkc, <- Hc. eapply bool_decide_eq_true_1, Hall. right. by left.
    + apply IH. intros x [Hx|Hx]; apply Hall; [by left | right; by right].
  - split; [done|]. exists c. split; [done|].
    assert (Hex : Exists (fun kc' : string * list R => length kc'.2 <> length c')
                    ((k', c') :: out)).
    { clear -Hall. induction ((k', c') :: out) as [|x l IH]; [discriminate|].
      cbn in Hall. apply andb_false_iff in Hall as [Hx|Hl].
      - left. by apply bool_decide_eq_false in Hx.
      - right. by apply IH. }
    apply Exists_cons in Hex as [Hex|Hex]; [done|]. right.
    clear -Hex Hlen Hc. induction Hlen as [|kc kc' l l' [_ Hkc] _ IH];
      [by inversion Hex|].
    apply Exists_cons in Hex as [Hex|Hex].
    + left. by rewrite <- Hkc, <- Hc.
    + right. by apply IH.
Qed.

(** X2.  Every outcome of [_transform_from_uniform] and its cause: [KeyError]
    for a column of a parameter the search space does not have, and
    otherwise the columns under their names, in their order and of their
    lengths, each value through the inverse transform of its parameter. *)
Theorem transform_from_uniform_outcome (samples_sa : recarray)
    (search_space : dict BaseDistribution) :
  match _transform_from_uniform samples_sa search_space with
  | Ok transformed =>
      Forall2 (transformed_by from_uniform search_space) samples_sa transformed
      /\ Forall2 (fun kc kc' => kc'.1 = kc.1 /\ length kc'.2 = length kc.2)
           samples_sa transformed
  | Raise KeyError => Exists (unknown search_space) samples_sa
  | Raise _ => False
  end.
Proof.
  unfold _transform_from_uniform.
  destruct (known_or_unknown search_space samples_sa) as [Hknown|Hunknown].
  2:{ by rewrite transform_columns_raise. }
  destruct (transform_columns_succeed from_uniform _ _ Hknown) as (out & -> & Hout).
  split; [exact Hout|]. by eapply Forall2_transformed_lengths.
Qed.

(** ** Sampling, then the log-density *)

Lemma to_from_uniform (distribution : BaseDistribution) (x : R) :
  step_of distribution = None ->
  to_uniform distribution (from_uniform distribution x) = x.
Proof.
  destruct distribution as [low high [] step | low high log step | choices];
    cbn; intros Hs; subst; try discriminate; try done.
  apply ln_exp.
Qed.

Lemma transform_back (search_space : dict BaseDistribution) (sampled out : dict (list R)) :
  Forall (fun kc => exists distribution,
            dict_lookup search_space kc.1 = Some distribution
            /\ step_of distribution = None) sampled ->
  Forall2 (transformed_by from_uniform search_space) sampled out ->
  dict_mapM (fun k c => distribution ← dict_get search_space k;
                        Ok (map (to_uniform distribution) c)) out = Ok sampled.
Proof.
  intros Hstep Hout. induction Hout as [|[k c] [k' c'] sampled out Hkc _ IH]; [done|].
  apply Forall_cons in Hstep as [(d & Hd & Hs) Hstep].
  destruct Hkc as (Hk & d' & Hd' & Hc). cbn [fst snd] in *. subst k' c'.
  assert (d' = d) as -> by congruence.
  assert (Hg : dict_get search_space k = Ok d) by (unfold dict_get; by rewrite Hd').
  cbn [dict_mapM]. rewrite Hg. cbn [mbind result_bind].
  rewrite (IH Hstep). cbn [mbind result_bind]. do 3 f_equal.
  rewrite map_map. rewrite <- (map_id c) at 2. apply map_ext.
  intros x. by apply to_from_uniform.
Qed.

(** X3.  For a search space without steps, the log-density of what [sample]
    returned is the log-density primitive at the record array the sampling
    primitive drew: the two transforms cancel. *)
Theorem log_pdf_of_sample (rng_state : Type)
    (_sample : mixture_distribution -> rng_state -> nat -> recarray)
    (_logpdf : mixture_distribution -> recarray -> list R)
    (self : _ParzenEstimator) (rng : rng_state) (size : nat) :
  let sampled := _sample (_mixture self) rng size in
  np_rec_fromarrays sampled = Ok sampled ->
  Forall (fun kc => exists distribution,
            dict_lookup (_search_space self) kc.1 = Some distribution
            /\ step_of distribution = None) sampled ->
  exists out,
    sample rng_state _sample self rng size = Ok out
    /\ log_pdf _logpdf self out = Ok (_logpdf (_mixture self) sampled).
Proof.
  intros sampled Hsa Hstep. unfold sample, log_pdf. fold sampled.
  unfold _transform_from_uniform in *.
  destruct (transform_columns_succeed from_uniform (_search_space self) sampled)
    as (out & Hrun & Hout').
  { eapply Forall_impl; [exact Hstep|]. intros kc (d & Hd & _).
    unfold known. by rewrite Hd. }
  exists out. split; [exact Hrun|].
  unfold _transform_to_uniform.
  rewrite (transform_back _ _ _ Hstep Hout'). cbn [mbind result_bind].
  by rewrite Hsa.
Qed.

Lemma log_pdf_of_sample_witness :
  np_rec_fromarrays (sample_log (_mixture log_estimator) tt 2)
  = Ok (sample_log (_mixture log_estimator) tt 2)
  /\ exists out,
       sample unit sample_log log_estimator tt 2 = Ok out
       /\ log_pdf count_columns log_estimator out
          = Ok (count_columns (_mixture log_estimator)
                  (sample_log (_mixture log_estimator) tt 2)).
Proof.
  split; [reflexivity|].
  apply (log_pdf_of_sample unit sample_log count_columns log_estimator tt 2).
  - reflexivity.
  - repeat constructor; cbn; eexists; (split; [reflexivity|reflexivity]).
Defined.

(** ** The working domain *)

(** X4.  The forward transform takes a value within the declared bounds of a
    well-formed numerical parameter to a working value within the bounds
    [_calculate_distributions] resolves, also where these are widened by
    half a step before the logarithm; and these bounds are ordered. *)
Theorem to_uniform_within_working_domain (distribution : BaseDistribution) (x : R) :
  well_formed distribution ->
  is_categorical distribution = false ->
  within_bounds distribution x ->
  (working_domain distribution).1.1 <= to_uniform distribution x
    <= (working_domain distribution).1.2
  /\ (working_domain distribution).1.1 <= (working_domain distribution).1.2.
Proof.
  destruct distribution as [low high [] step | low high [] step | choices];
    cbn; try discriminate.
  - intros (Hlh & Hlog & _) _ Hx. destruct (Hlog eq_refl) as [Hlow ->]. cbn.
    repeat split; apply ln_le_compat; lra.
  - intros (Hlh & _ & _) _ Hx. destruct step; cbn; lra.
  - intros (Hlh & Hlog & _) _ Hx. destruct (Hlog eq_refl) as [Hlow ->].
    assert (H1 : 1 <= IZR low) by by apply IZR_le.
    assert (Hh : IZR low <= IZR high) by by apply IZR_le.
    repeat split; apply ln_le_compat; lra.
  - intros (Hlh & _) _ Hx. assert (Hh : IZR low <= IZR high) by by apply IZR_le.
    lra.
Qed.

Lemma to_uniform_within_working_domain_witness :
  (working_domain log_int_1_10).1.1 <= to_uniform log_int_1_10 10
    <= (working_domain log_int_1_10).1.2
  /\ (working_domain log_int_1_10).1.1 <= (working_domain log_int_1_10).1.2.
Proof.
  apply (to_uniform_within_working_domain log_int_1_10 10).
  - cbn. repeat split; try lia. exists 9%Z. lia.
  - reflexivity.
  - cbn. lra.
Defined.

(** ** The shape of the mixture *)


Lemma increment_choices_Forall (P : list R -> Prop) (observed : list Z)
    (rows out : list (list R)) :
  (forall row j, P row -> P (alter (Rplus 1) j row)) ->
  Forall P rows ->
  increment_choices observed rows = Ok out ->
  Forall P out /\ length out = length rows.
Proof.
  intros Halter Hrows. revert observed out.
  induction Hrows as [|row rows Hrow Hrows IH]; intros [|o observed] out; cbn;
    try (intros [= <-]; split; [by constructor | done]).
  destruct (normalize_index (length row) o) as [j|]; [|discriminate].
  cbn [mbind result_bind].
  destruct (increment_choices observed rows) as [rest|] eqn:Hrest; [|discriminate].
  cbn [mbind result_bind]. intros [= <-].
  destruct (IH _ _ Hrest) as [Hrest' Hlen]. split.
  - constructor; [by apply Halter | done].
  - cbn. by rewrite Hlen.
Qed.

Lemma length_numerical_mus_eq (observations : list R) (low high : R)
    (parameters : _ParzenEstimatorParameters) :
  length (numerical_mus observations low high parameters)
  = (length observations
     + if prior_considered (length observations) parameters then 1 else 0)%nat.
Proof.
  unfold numerical_mus, numerical_prior_considered, prior_considered.
  case_decide; [rewrite length_app; cbn; lia|].
  destruct (consider_prior parameters); [rewrite length_app; cbn; lia | lia].
Qed.





(** ** Outcomes of the categorical builder *)

Lemma normalize_index_outcome (k : nat) (i : Z) :
  match normalize_index k i with
  | Ok j => (- Z.of_nat k <= i < Z.of_nat k)%Z
  | Raise IndexError => ~ (- Z.of_nat k <= i < Z.of_nat k)%Z
  | Raise _ => False
  end.
Proof. unfold normalize_index. repeat case_decide; lia. Qed.

Lemma increment_choices_outcome (observed : list R) (rows : nat) (row : list R) :
  (length observed <= rows)%nat ->
  match increment_choices (map astype_int observed) (replicate rows row) with
  | Ok _ => Forall (index_in_range (length row)) observed
  | Raise IndexError => Exists (fun o => ~ index_in_range (length row) o) observed
  | Raise _ => False
  end.
Proof.
  revert rows. induction observed as [|o observed IH]; intros rows Hrows.
  - cbn. by destruct rows.
  - destruct rows as [|rows]; [cbn in Hrows; lia|].
    cbn [map replicate increment_choices].
    pose proof (normalize_index_outcome (length row) (astype_int o)) as Ho.
    destruct (normalize_index (length row) (astype_int o)) as [j|e];
      cbn [mbind result_bind].
    + specialize (IH rows). 
      destruct (increment_choices _ _) as [rest|e]; cbn [mbind result_bind].
      * constructor; [exact Ho|]. apply IH. cbn in Hrows. lia.
      * destruct e; try (exfalso; apply IH; cbn in Hrows; lia).
        right. apply IH. cbn in Hrows. lia.
    + destruct e; try done. by left.
Qed.

(** X7.  Every outcome of the categorical builder and its cause: it fails the
    assertion when there is no prior weight, raises [IndexError] when an
    observation is not an index of a choice (numpy counts a negative index
    from the end), and otherwise returns a table. *)
Theorem categorical_outcome (observations : list R) (choices : list choice)
    (parameters : _ParzenEstimatorParameters) :
  match _calculate_categorical_distributions observations choices parameters with
  | Ok d =>
      is_Some (prior_weight parameters)
      /\ Forall (index_in_range (length choices)) observations
  | Raise AssertionError => prior_weight parameters = None
  | Raise IndexError =>
      is_Some (prior_weight parameters)
      /\ Exists (fun o => ~ index_in_range (length choices) o) observations
  | Raise _ => False
  end.
Proof.
  destruct (prior_weight parameters) as [pw|] eqn:Hpw.
  2:{ by rewrite categorical_needs_prior_weight. }
  unfold _calculate_categorical_distributions. rewrite Hpw, length_map.
  set (prior := if decide (length observations = 0)%nat then true
                else consider_prior parameters).
  assert (Hout : forall rows value, (length observations <= rows)%nat ->
            match
              weights ← increment_choices (map astype_int observations)
                          (replicate rows (replicate (length choices) value));
              Ok (_categorical_distribution (map normalize_row weights))
            with
            | Ok d => is_Some (Some pw)
                      /\ Forall (index_in_range (length choices)) observations
            | Raise AssertionError => Some pw = None
            | Raise IndexError =>
                is_Some (Some pw)
                /\ Exists (fun o => ~ index_in_range (length choices) o) observations
            | Raise _ => False
            end).
  { intros rows value Hrows.
    pose proof (increment_choices_outcome observations rows
                  (replicate (length choices) value) Hrows) as Hinc.
    rewrite length_replicate in Hinc.
    destruct (increment_choices _ _) as [out|e]; cbn [mbind result_bind].
    - by split.
    - destruct e; done. }
  destruct prior; cbn [not_none mbind result_bind]; apply Hout; lia.
Qed.

Lemma np_sum_pos (row : list R) : Forall (Rlt 0) row -> row <> [] -> 0 < np_sum row.
Proof.
  intros Hrow Hne. destruct Hrow as [|x row Hx Hrow]; [done|].
  rewrite np_sum_cons.
  assert (0 <= np_sum row); [|lra].
  apply np_sum_nonneg. eapply Forall_impl; [exact Hrow|]. intros y Hy. lra.
Qed.

Lemma normalize_row_probability (row : list R) :
  row <> [] -> Forall (Rlt 0) row -> probability_row (length row) (normalize_row row).
Proof.
  intros Hne Hrow. pose proof (np_sum_pos row Hrow Hne) as Hs.
  unfold probability_row, normalize_row. split; [apply length_map|]. split.
  - apply Forall_map. eapply Forall_impl; [exact Hrow|].
    intros x Hx. cbn. by apply Rdiv_lt_0_compat.
  - rewrite np_sum_div. field. lra.
Qed.

Lemma normalized_table (rows k : nat) (value : R) (observed : list Z)
    (out : list (list R)) :
  0 < value -> k <> 0%nat ->
  increment_choices observed (replicate rows (replicate k value)) = Ok out ->
  Forall (probability_row k) (map normalize_row out) /\ length out = rows.
Proof.
  intros Hvalue Hk Hout.
  apply (increment_choices_Forall
           (fun row => length row = k /\ Forall (Rlt 0) row)) in Hout
    as [Hrows Hlen].
  - rewrite length_replicate in Hlen. split; [|exact Hlen].
    apply Forall_map. eapply Forall_impl; [exact Hrows|].
    intros row [<- Hrow]. cbn. apply normalize_row_probability; [|exact Hrow].
    by destruct row.
  - intros row j [Hl Hrow]. split; [by rewrite length_alter|].
    apply Forall_alter; [exact Hrow|]. intros x _ Hx. lra.
  - apply Forall_replicate. split; [apply length_replicate|].
    by apply Forall_replicate.
Qed.

(** X8.  With a positive prior weight and at least one choice, every row of the
    table the categorical builder returns is a probability distribution
    over the choices: one entry per choice, all positive, summing to one.
    The table has one row per observation, and one more for the prior when
    it is considered. *)
Theorem categorical_rows_are_distributions (observations : list R)
    (choices : list choice) (parameters : _ParzenEstimatorParameters) (pw : R)
    (d : distribution_array) :
  prior_weight parameters = Some pw ->
  0 < pw ->
  choices <> [] ->
  _calculate_categorical_distributions observations choices parameters = Ok d ->
  Forall (probability_row (length choices)) (table_of d)
  /\ length (table_of d)
     = (length observations
        + if prior_considered (length observations) parameters then 1 else 0)%nat.
Proof.
  intros Hpw Hpos Hchoices.
  unfold _calculate_categorical_distributions, prior_considered.
  rewrite Hpw, length_map.
  destruct (decide (length observations = 0)%nat) as [Hn|Hn];
    [|destruct (consider_prior parameters)];
    cbn [not_none mbind result_bind];
    (destruct (increment_choices _ _) as [out|] eqn:Hout; [|discriminate]);
    cbn [mbind result_bind]; intros [= <-]; cbn [table_of];
    apply normalized_table in Hout as [Hrows Hlen];
    try (by destruct choices);
    try (apply Rdiv_lt_0_compat; [exact Hpos | apply lt_0_INR; lia]);
    (split; [exact Hrows | rewrite length_map, Hlen; lia]).
Qed.

Lemma categorical_succeeds (observations : list R) (choices : list choice)
    (parameters : _ParzenEstimatorParameters) :
  is_Some (prior_weight parameters) ->
  Forall (index_in_range (length choices)) observations ->
  succeeds (_calculate_categorical_distributions observations choices parameters).
Proof.
  intros [pw Hpw] Hobs.
  unfold _calculate_categorical_distributions. rewrite Hpw, length_map.
  assert (Hout : forall rows value, (length observations <= rows)%nat ->
            succeeds
              (weights ← increment_choices (map astype_int observations)
                           (replicate rows (replicate (length choices) value));
               Ok (_categorical_distribution (map normalize_row weights)))).
  { intros rows value Hrows.
    pose proof (increment_choices_outcome observations rows
                  (replicate (length choices) value) Hrows) as Hinc.
    rewrite length_replicate in Hinc.
    destruct (increment_choices _ _) as [out|e]; cbn [mbind result_bind];
      [by eexists|].
    destruct e; try done. exfalso.
    apply List.Exists_exists in Hinc as (o & Ho & Hno).
    rewrite List.Forall_forall in Hobs. by apply Hno, Hobs. }
  destruct (decide _); [|destruct (consider_prior parameters)];
    cbn [not_none mbind result_bind]; apply Hout; lia.
Qed.

Lemma categorical_rows_are_distributions_witness :
  exists d,
    _calculate_categorical_distributions [0; 2] abc forced_prior_parameters = Ok d
    /\ Forall (probability_row (length abc)) (table_of d)
    /\ length (table_of d) = 2%nat.
Proof.
  destruct (categorical_succeeds [0; 2] abc forced_prior_parameters) as [d Hd].
  { by eexists. }
  { pose proof (astype_int_IZR 0) as H0. pose proof (astype_int_IZR 2) as H2.
    unfold index_in_range.
    repeat constructor; rewrite ?H0, ?H2; cbn; lia. }
  exists d. split; [exact Hd|].
  apply (categorical_rows_are_distributions [0; 2] abc forced_prior_parameters 1 _).
  - reflexivity.
  - lra.
  - discriminate.
  - exact Hd.
Defined.

(** ** The shape of a numerical distribution array *)

Lemma length_numerical_sigmas (n_params : nat) (observations : list R) (low high : R)
    (step : option R) (parameters : _ParzenEstimatorParameters) :
  length (numerical_sigmas n_params observations low high step parameters)
  = length (numerical_mus observations low high parameters).
Proof.
  unfold numerical_sigmas.
  destruct (numerical_prior_considered _ _);
    rewrite ?length_insert, length_map; apply length_raw_sigmas.
Qed.

Lemma minsigma_pos (observations : list R) (low high : R) (step : option R)
    (parameters : _ParzenEstimatorParameters) :
  0 < maxsigma low high step ->
  0 < minsigma observations low high step parameters.
Proof.
  intros Hmax. rewrite minsigma_eq.
  destruct (consider_magic_clip parameters); [|unfold EPS; lra].
  apply Rdiv_lt_0_compat; [exact Hmax|].
  apply Rmin_glb_lt; [lra|].
  pose proof (pos_INR (length (numerical_mus observations low high parameters))).
  lra.
Qed.

Lemma np_clip_pos (x lo hi : R) : 0 < lo -> 0 < hi -> 0 < np_clip x lo hi <= hi.
Proof.
  intros Hlo Hhi. unfold np_clip, Rmin, Rmax.
  repeat destruct (Rle_dec _ _); lra.
Qed.

(** X9.  The arrays a numerical distribution is built from are aligned, with one
    entry per observation and one more for the prior when it is considered;
    for bounds [low < high] every bandwidth is positive and at most
    [maxsigma]; and the prior, when it is considered, is the last
    component, centred between the bounds, its bandwidth the whole range
    whatever the clip is. *)
Theorem numerical_distribution_shape (n_params : nat) (observations : list R)
    (low high : R) (step : option R) (parameters : _ParzenEstimatorParameters) :
  low < high ->
  (forall q, step = Some q -> 0 <= q) ->
  let d := _calculate_numerical_distributions n_params observations low high step
             parameters in
  let n := length observations in
  let prior := prior_considered n parameters in
  let k := (n + if prior then 1 else 0)%nat in
  length (mus_of d) = k /\ length (sigmas_of d) = k
  /\ lows_of d = replicate k low /\ highs_of d = replicate k high
  /\ take n (mus_of d) = observations
  /\ Forall (fun s => 0 < s <= high - low + default 0 step) (sigmas_of d)
  /\ (prior = true ->
      mus_of d !! n = Some (0.5 * (low + high))
      /\ sigmas_of d !! n = Some (high - low + default 0 step)).
Proof.
  intros Hlh Hstep d n prior k.
  assert (Hmax : 0 < maxsigma low high step).
  { rewrite maxsigma_eq. destruct step as [q|]; cbn; [|lra].
    specialize (Hstep q eq_refl). lra. }
  pose proof (length_numerical_mus_eq observations low high parameters) as Hmus.
  pose proof (length_numerical_sigmas n_params observations low high step parameters)
    as Hsig.
  fold n prior k in Hmus. rewrite Hmus in Hsig.
  assert (Hd : mus_of d = numerical_mus observations low high parameters
               /\ sigmas_of d = numerical_sigmas n_params observations low high step
                                  parameters
               /\ lows_of d = replicate k low /\ highs_of d = replicate k high).
  { subst d. unfold _calculate_numerical_distributions. rewrite Hmus.
    by destruct step. }
  destruct Hd as (-> & -> & -> & ->).
  assert (Hp : numerical_prior_considered observations parameters = prior) by done.
  repeat split; try done.
  - unfold numerical_mus. rewrite Hp. subst n. destruct prior; [|apply firstn_all].
    by rewrite take_app_length.
  - unfold numerical_sigmas.
    assert (Hclip : Forall (fun s => 0 < s <= high - low + default 0 step)
              (map (fun s => np_clip s
                       (minsigma observations low high step parameters)
                       (maxsigma low high step))
                 (raw_sigmas n_params observations low high step parameters))).
    { apply Forall_map, Forall_true. intros s. cbn.
      rewrite <- maxsigma_eq. apply np_clip_pos; [by apply minsigma_pos | done]. }
    rewrite Hp. destruct prior; [|exact Hclip].
    apply Forall_insert; [exact Hclip|]. rewrite <- maxsigma_eq in *.
    unfold maxsigma in *. lra.
  - unfold numerical_mus. rewrite Hp, H. by apply list_lookup_middle.
  - unfold numerical_sigmas. rewrite Hp, H.
    replace (high - low + default 0 step) with (1.0 * sigma_range low high step)
      by (unfold sigma_range; lra).
    apply list_lookup_insert_eq. rewrite length_map, length_raw_sigmas, Hmus.
    subst k n. rewrite H. lia.
Qed.

Lemma numerical_distribution_shape_witness :
  let d := _calculate_numerical_distributions 1 [1 / 4; 3 / 4] 0 1 None
             uniform_parameters in
  length (mus_of d) = 3%nat /\ length (sigmas_of d) = 3%nat
  /\ lows_of d = replicate 3 0 /\ highs_of d = replicate 3 1
  /\ take 2 (mus_of d) = [1 / 4; 3 / 4]
  /\ Forall (fun s => 0 < s <= 1 - 0 + default 0 None) (sigmas_of d)
  /\ (prior_considered 2 uniform_parameters = true ->
      mus_of d !! 2%nat = Some (0.5 * (0 + 1))
      /\ sigmas_of d !! 2%nat = Some (1 - 0 + default 0 None)).
Proof.
  apply (numerical_distribution_shape 1 [1 / 4; 3 / 4] 0 1 None uniform_parameters).
  - lra.
  - discriminate.
Defined.

(** ** The multivariate bandwidth *)

Lemma Rpower_le_1 (x y : R) : 1 <= x -> y <= 0 -> 0 < Rpower x y <= 1.
Proof.
  intros Hx Hy. unfold Rpower. split; [apply exp_pos|].
  rewrite <- exp_0. apply exp_le.
  assert (Hln : 0 <= ln x).
  { rewrite <- ln_1. apply ln_le_compat; lra. }
  nra.
Qed.

Lemma multivariate_sigma_bounds (n_params n_observations : nat) (low high : R)
    (step : option R) :
  0 <= sigma_range low high step ->
  0 <= multivariate_sigma n_params n_observations low high step
    <= SIGMA0_MAGNITUDE * sigma_range low high step.
Proof.
  intros Hrange. unfold multivariate_sigma.
  destruct (Rpower_le_1 (INR (Nat.max n_observations 1))
              (- 1.0 / (INR n_params + 4))) as [Hpos Hle].
  - replace 1 with (INR 1) by done. apply le_INR. lia.
  - pose proof (pos_INR n_params).
    assert (0 < / (INR n_params + 4)) by (apply Rinv_0_lt_compat; lra).
    unfold Rdiv. nra.
  - unfold SIGMA0_MAGNITUDE. nra.
Qed.

(** X10.  Under the multivariate rule every observation has the same bandwidth,
    the larger of [0.2 * max(n, 1) ** (-1 / (d + 4)) * range] and
    [minsigma]: the rule gives at most [0.2 * range], so the upper clip
    never binds. *)
Theorem multivariate_sigmas (n_params : nat) (observations : list R) (low high : R)
    (step : option R) (parameters : _ParzenEstimatorParameters) (i : nat) :
  multivariate parameters = true ->
  low <= high ->
  (forall q, step = Some q -> 0 <= q) ->
  consider_magic_clip parameters = true \/ EPS <= maxsigma low high step ->
  (i < length observations)%nat ->
  numerical_sigmas n_params observations low high step parameters !! i
  = Some (Rmax (multivariate_sigma n_params (length observations) low high step)
            (minsigma observations low high step parameters))
  /\ multivariate_sigma n_params (length observations) low high step
     <= 0.2 * (high - low + default 0 step).
Proof.
  intros Hmv Hlh Hstep Hmagic Hi.
  assert (Hrange : 0 <= sigma_range low high step).
  { unfold sigma_range. destruct step as [q|]; cbn; [|lra].
    specialize (Hstep q eq_refl). lra. }
  pose proof (multivariate_sigma_bounds n_params (length observations) low high step
                Hrange) as [Hpos Hle].
  assert (Hmax : maxsigma low high step = sigma_range low high step)
    by (unfold maxsigma; lra).
  pose proof (minsigma_le_maxsigma observations low high step parameters) as Hmin.
  rewrite Hmax in Hmin, Hmagic. specialize (Hmin Hrange Hmagic).
  split; [|unfold SIGMA0_MAGNITUDE, sigma_range in *; lra].
  unfold numerical_sigmas, raw_sigmas. rewrite Hmv.
  assert (Hl : map (fun s => np_clip s (minsigma observations low high step parameters)
                               (maxsigma low high step))
                 (replicate (length (numerical_mus observations low high parameters))
                    (SIGMA0_MAGNITUDE
                     * Rpower (INR (Nat.max (length observations) 1))
                         (- 1.0 / (INR n_params + 4))
                     * sigma_range low high step)) !! i
               = Some (np_clip (multivariate_sigma n_params (length observations)
                                  low high step)
                         (minsigma observations low high step parameters)
                         (maxsigma low high step))).
  { apply (lookup_map (fun s => np_clip s _ _)). apply lookup_replicate_2.
    pose proof (length_numerical_mus observations low high parameters). lia. }
  assert (Hc : np_clip (multivariate_sigma n_params (length observations) low high step)
                 (minsigma observations low high step parameters)
                 (maxsigma low high step)
               = Rmax (multivariate_sigma n_params (length observations) low high step)
                   (minsigma observations low high step parameters)).
  { unfold np_clip. apply Rmin_left. rewrite Hmax. apply Rmax_lub; [|exact Hmin].
    unfold SIGMA0_MAGNITUDE in Hle. lra. }
  rewrite <- Hc.
  destruct (numerical_prior_considered observations parameters); [|exact Hl].
  by rewrite list_lookup_insert_ne by lia.
Qed.

Lemma multivariate_sigmas_witness :
  numerical_sigmas 1 [1 / 4; 3 / 4] 0 1 None multivariate_parameters !! 1%nat
  = Some (Rmax (multivariate_sigma 1 2 0 1 None)
            (minsigma [1 / 4; 3 / 4] 0 1 None multivariate_parameters))
  /\ multivariate_sigma 1 2 0 1 None <= 0.2 * (1 - 0 + default 0 None).
Proof.
  apply (multivariate_sigmas 1 [1 / 4; 3 / 4] 0 1 None multivariate_parameters 1).
  - reflexivity.
  - lra.
  - discriminate.
  - by left.
  - cbn. lia.
Defined.

(** ** The endpoints *)

Lemma pointwise_le_refl (l : list R) : pointwise_le l l.
Proof. intros i. lra. Qed.

Lemma pointwise_le_trans (l1 l2 l3 : list R) :
  pointwise_le l1 l2 -> pointwise_le l2 l3 -> pointwise_le l1 l3.
Proof. intros H12 H23 i. specialize (H12 i). specialize (H23 i). lra. Qed.

Lemma pointwise_le_insert (l : list R) (i : nat) (v : R) :
  (forall x, l !! i = Some x -> v <= x) -> pointwise_le (<[i := v]> l) l.
Proof.
  intros Hv j. rewrite !nth_lookup.
  destruct (decide (i = j)) as [<-|Hne].
  - destruct (l !! i) as [x|] eqn:Hx.
    + rewrite list_lookup_insert_eq by (by eapply lookup_lt_Some). cbn. by apply Hv.
    + rewrite list_insert_ge by (by apply lookup_ge_None). rewrite Hx. cbn. lra.
  - rewrite list_lookup_insert_ne by done. lra.
Qed.

Lemma pointwise_le_take_indices (l k : list R) (indices : list nat) :
  pointwise_le l k -> Forall2 Rle (take_indices l indices) (take_indices k indices).
Proof.
  intros Hlk. unfold take_indices.
  induction indices as [|i indices IH]; cbn; constructor; [apply Hlk | exact IH].
Qed.

(** An entry of [sorted_sigmas]: the larger gap of a point to its two
    neighbours. *)
Lemma neighbour_gap_lookup (we : list R) (i : nat) (x y z : R) :
  we !! i = Some x -> we !! (i + 1)%nat = Some y -> we !! (i + 2)%nat = Some z ->
  let m := length we in
  let inner := take (m - 2) (drop 1 we) in
  zip_with Rmax (zip_with Rminus inner (take (m - 2) we))
    (zip_with Rminus (drop 2 we) inner) !! i
  = Some (Rmax (y - x) (z - y)).
Proof.
  intros Hx Hy Hz m inner.
  assert (Hi : (i < m - 2)%nat).
  { apply lookup_lt_Some in Hz. subst m. lia. }
  assert (Hinner : inner !! i = Some y).
  { subst inner. rewrite lookup_take_lt, lookup_drop by done.
    by rewrite Nat.add_comm. }
  rewrite !lookup_zip_with, Hinner, lookup_take_lt, Hx, lookup_drop by done.
  replace (2 + i)%nat with (i + 2)%nat by lia. by rewrite Hz.
Qed.

(** Leaving the endpoints out never widens a bandwidth of the univariate
    rule. *)
Lemma neighbour_sigmas_endpoints (low high : R) (step : option R) (mus : list R) :
  Forall2 Rle (neighbour_sigmas false low high step mus)
    (neighbour_sigmas true low high step mus).
Proof.
  unfold neighbour_sigmas.
  set (sorted_mus := take_indices mus (np_argsort Rleb mus)).
  set (we := (low - default 0 step / 2) :: sorted_mus ++ [high + default 0 step / 2]).
  set (m := length we).
  set (inner := take (m - 2) (drop 1 we)).
  set (S := zip_with Rmax (zip_with Rminus inner (take (m - 2) we))
              (zip_with Rminus (drop 2 we) inner)).
  cbn [negb andb]. apply pointwise_le_take_indices.
  case_bool_decide as Hm; [|apply pointwise_le_refl].
  assert (Hlookup : forall i, (i + 2 < m)%nat ->
            exists x y z, we !! i = Some x /\ we !! (i + 1)%nat = Some y
                          /\ we !! (i + 2)%nat = Some z
                          /\ S !! i = Some (Rmax (y - x) (z - y))).
  { intros i Hi.
    destruct (lookup_lt_is_Some_2 we i) as [x Hx]; [subst m; lia|].
    destruct (lookup_lt_is_Some_2 we (i + 1)) as [y Hy]; [subst m; lia|].
    destruct (lookup_lt_is_Some_2 we (i + 2)) as [z Hz]; [subst m; lia|].
    exists x, y, z. repeat split; try done.
    by apply neighbour_gap_lookup. }
  assert (HS : length S = (m - 2)%nat).
  { subst S inner. rewrite !length_zip_with, !length_take, !length_drop.
    subst m. lia. }
  eapply pointwise_le_trans.
  - apply pointwise_le_insert. intros s Hs.
    rewrite HS in Hs.
    rewrite list_lookup_insert_ne in Hs by lia.
    destruct (Hlookup (m - 3)%nat) as (x & y & z & Hx & Hy & Hz & HSi); [lia|].
    replace (m - 2 - 1)%nat with (m - 3)%nat in Hs by lia.
    rewrite HSi in Hs. injection Hs as <-.
    replace (m - 3 + 1)%nat with (m - 2)%nat in Hy by lia.
    rewrite (nth_lookup_Some _ _ _ _ Hx), (nth_lookup_Some _ _ _ _ Hy).
    apply Rmax_l.
  - apply pointwise_le_insert. intros s Hs.
    destruct (Hlookup 0%nat) as (x & y & z & Hx & Hy & Hz & HSi); [lia|].
    rewrite HSi in Hs. injection Hs as <-.
    rewrite (nth_lookup_Some _ _ _ _ Hy), (nth_lookup_Some _ _ _ _ Hz).
    apply Rmax_r.
Qed.

Lemma np_clip_monotone (x y lo hi : R) : x <= y -> np_clip x lo hi <= np_clip y lo hi.
Proof.
  intros Hxy. unfold np_clip, Rmin, Rmax. repeat destruct (Rle_dec _ _); lra.
Qed.

(** X11.  With [consider_endpoints] off no bandwidth is larger than with it on,
    whatever the other parameters and the observations are. *)
Theorem endpoints_never_widen (n_params : nat) (observations : list R) (low high : R)
    (step : option R) (parameters : _ParzenEstimatorParameters) :
  Forall2 Rle
    (numerical_sigmas n_params observations low high step
       (with_endpoints false parameters))
    (numerical_sigmas n_params observations low high step
       (with_endpoints true parameters)).
Proof.
  unfold numerical_sigmas.
  change (numerical_prior_considered observations (with_endpoints false parameters))
    with (numerical_prior_considered observations parameters).
  change (numerical_prior_considered observations (with_endpoints true parameters))
    with (numerical_prior_considered observations parameters).
  change (minsigma observations low high step (with_endpoints false parameters))
    with (minsigma observations low high step parameters).
  change (minsigma observations low high step (with_endpoints true parameters))
    with (minsigma observations low high step parameters).
  assert (Hraw : Forall2 Rle
            (raw_sigmas n_params observations low high step
               (with_endpoints false parameters))
            (raw_sigmas n_params observations low high step
               (with_endpoints true parameters))).
  { unfold raw_sigmas. cbn [multivariate with_endpoints consider_endpoints].
    change (numerical_mus observations low high (with_endpoints false parameters))
      with (numerical_mus observations low high parameters).
    change (numerical_mus observations low high (with_endpoints true parameters))
      with (numerical_mus observations low high parameters).
    destruct (multivariate parameters).
    - apply Forall2_same_length_lookup_2; [done|].
      intros i x y Hx Hy. rewrite Hx in Hy. injection Hy as <-. lra.
    - apply neighbour_sigmas_endpoints. }
  assert (Hclip : Forall2 Rle
            (map (fun s => np_clip s (minsigma observations low high step parameters)
                             (maxsigma low high step))
               (raw_sigmas n_params observations low high step
                  (with_endpoints false parameters)))
            (map (fun s => np_clip s (minsigma observations low high step parameters)
                             (maxsigma low high step))
               (raw_sigmas n_params observations low high step
                  (with_endpoints true parameters)))).
  { induction Hraw as [|x y l k Hxy _ IH]; cbn; constructor;
      [by apply np_clip_monotone | exact IH]. }
  destruct (numerical_prior_considered observations parameters); [|exact Hclip].
  apply Forall2_insert; [exact Hclip | lra].
Qed.

(** ** What the constructor requires *)

Lemma dict_lookup_Some_keys {V} (d : dict V) (k : string) (v : V) :
  dict_lookup d k = Some v -> In k (keys d).
Proof.
  intros Hk%dict_lookup_In. unfold keys. apply in_map_iff. by exists (k, v).
Qed.

Lemma transform_to_uniform_inv (samples_dict : dict (list R))
    (search_space : dict BaseDistribution) (sa : recarray) :
  _transform_to_uniform samples_dict search_space = Ok sa ->
  Forall (known search_space) samples_dict
  /\ keys sa = keys samples_dict
  /\ exists n, Forall (fun kc => length kc.2 = n) samples_dict.
Proof.
  unfold _transform_to_uniform.
  destruct (known_or_unknown search_space samples_dict) as [Hknown|Hunknown].
  2:{ by rewrite transform_columns_raise. }
  destruct (transform_columns_succeed to_uniform _ _ Hknown) as (out & Hrun & Hout).
  rewrite Hrun. cbn [mbind result_bind].
  intros (-> & k & c & rest & -> & Hall)%np_rec_fromarrays_inv.
  split; [exact Hknown|]. split; [by eapply dict_mapM_keys|].
  exists (length c). apply Forall2_transformed_lengths in Hout.
  clear -Hout Hall. induction Hout as [|kc kc' l l' [_ Hkc] _ IH]; [done|].
  apply Forall_cons in Hall as [Hhead Hall].
  constructor; [by rewrite <- Hkc | by apply IH].
Qed.

(** X12.  For a search space of numerical parameters, the constructor succeeds
    exactly when there is a first column of observations, every column has
    its length, the observations and the search space name the same
    parameters, predetermined weights have that length too, and the weight
    scheme succeeds. *)
Theorem init_succeeds_iff (observations : dict (list R))
    (search_space : dict BaseDistribution) (parameters : _ParzenEstimatorParameters)
    (pre : option ndarray) (h : heap) :
  no_categorical search_space = true ->
  succeeds (__init__ observations search_space parameters pre h)
  <-> exists first,
        first_value observations = Ok first
        /\ Forall (fun kc => length kc.2 = length first) observations
        /\ same_keys observations search_space
        /\ (forall p, pre = Some p -> size p = length first)
        /\ succeeds (_calculate_weights pre (length first) parameters h).
Proof.
  intros Hcat. split.
  - intros [[self h'] Hinit].
    assert (Hsize : forall first, first_value observations = Ok first ->
              forall p, pre = Some p -> size p = length first).
    { intros first Hfirst p ->. unfold __init__ in Hinit. rewrite Hfirst in Hinit.
      cbn [mbind result_bind] in Hinit. unfold assert in Hinit.
      destruct (bool_decide (length first = size p)) eqn:Hs; [|discriminate].
      by apply bool_decide_eq_true in Hs. }
    apply init_inv in Hinit as (first & w & tobs & prod & Hfirst & Hw & Ht & Hprod & _).
    exists first. split; [exact Hfirst|].
    pose proof (transform_to_uniform_inv _ _ _ Ht) as (Hknown & Hkeys & n & Hlen).
    split; [|split; [|split; [by apply Hsize | by eexists]]].
    + destruct observations as [|[k0 c0] rest]; [discriminate|].
      injection Hfirst as <-.
      pose proof Hlen as Hn. apply Forall_cons in Hn as [Hn _]. cbn in Hn.
      by rewrite Hn.
    + intros k. split.
      * intros (kc & <- & Hin)%in_map_iff.
        rewrite List.Forall_forall in Hknown. destruct (Hknown kc Hin) as [d Hd].
        by eapply dict_lookup_Some_keys.
      * intros (kd & <- & Hin)%in_map_iff. rewrite <- Hkeys.
        assert (Hall : Forall (fun kd : string * BaseDistribution =>
                   succeeds (column ← field tobs kd.1;
                             _calculate_distributions (length search_space) column
                               kd.2 parameters)) search_space).
        { apply (dict_mapM_inv_succeeds
                   (fun param distribution =>
                      column ← field tobs param;
                      _calculate_distributions (length search_space) column
                        distribution parameters)). by eexists. }
        rewrite List.Forall_forall in Hall. destruct (Hall kd Hin) as [d Hd].
        unfold field in Hd.
        destruct (dict_lookup tobs kd.1) as [column|] eqn:Hcolumn; [|discriminate].
        by eapply dict_lookup_Some_keys.
  - intros (first & Hfirst & Hlen & Hkeys & Hsize & Hw).
    apply (init_succeeds _ _ _ _ _ first); try done.
    intros k distribution column Hin _.
    apply numerical_distributions_succeed.
    unfold no_categorical in Hcat. rewrite forallb_forall in Hcat.
    specialize (Hcat _ Hin). by apply negb_true_iff in Hcat.
Qed.

Lemma init_succeeds_iff_witness :
  succeeds (__init__ unit_observations unit_space no_prior_parameters None ∅)
  <-> exists first,
        first_value unit_observations = Ok first
        /\ Forall (fun kc => length kc.2 = length first) unit_observations
        /\ same_keys unit_observations unit_space
        /\ (forall p, @None ndarray = Some p -> size p = length first)
        /\ succeeds (_calculate_weights None (length first) no_prior_parameters ∅).
Proof.
  apply (init_succeeds_iff unit_observations unit_space no_prior_parameters None ∅).
  reflexivity.
Defined.

(** ** Idempotence of the quantisation *)

(** X13.  What the inverse transform returns for a well-formed parameter is a
    fixed point of the round trip: the forward transform and then the
    inverse transform give it back, whatever working value it came from. *)
Theorem from_uniform_stable (distribution : BaseDistribution) (x : R) :
  well_formed distribution ->
  from_uniform distribution (to_uniform distribution (from_uniform distribution x))
  = from_uniform distribution x.
Proof.
  destruct distribution as [low high [] step | low high [] step | choices];
    cbn -[snap_and_clip].
  - intros _. by rewrite ln_exp.
  - intros (Hlh & _ & Hstep). destruct step as [q|]; [|reflexivity].
    destruct (Hstep q eq_refl) as [Hq Hhigh].
    destruct (snap_and_clip_on_grid low high q x Hlh Hq Hhigh) as [Hb Hg].
    by apply snap_and_clip_fixed.
  - intros (Hlh & Hlog & _). destruct (Hlog eq_refl) as [Hlow ->].
    destruct (np_round_integer (exp x)) as [k ->]. rewrite np_clip_IZR.
    set (y := Z.min (Z.max k low) high).
    assert (Hy : (1 <= y)%Z) by (subst y; lia).
    rewrite exp_ln by (apply (IZR_lt 0); lia).
    rewrite np_round_IZR, np_clip_IZR. f_equal. subst y. lia.
  - intros (Hlh & _ & Hs & Hdiv).
    destruct (snap_and_clip_on_grid (IZR low) (IZR high) (IZR step) x) as [Hb Hg];
      [by apply IZR_le | by apply IZR_lt | by apply int_grid_high |].
    apply snap_and_clip_fixed; [by apply IZR_lt | done | done].
  - reflexivity.
Qed.

Lemma from_uniform_stable_witness :
  from_uniform log_int_1_10 (to_uniform log_int_1_10 (from_uniform log_int_1_10 (ln (9 / 4))))
  = from_uniform log_int_1_10 (ln (9 / 4)).
Proof.
  apply (from_uniform_stable log_int_1_10 (ln (9 / 4))).
  cbn. repeat split; try lia. exists 9%Z. lia.
Defined.

(** ** Sorting by index *)

Section ArgsortSpec.

Context {A : Type} (le : A -> A -> bool).
Hypothesis le_total : forall x y, le x y = false -> le y x = true.
Hypothesis le_trans : forall x y z, le x y = true -> le y z = true -> le x z = true.

Lemma insert_sorted_Permutation (x : nat * A) (l : list (nat * A)) :
  insert_sorted le x l ≡ₚ x :: l.
Proof.
  induction l as [|y l IH]; [done|]. cbn. destruct (le x.2 y.2); [done|].
  rewrite IH. apply Permutation_swap.
Qed.

Lemma insert_sorted_StronglySorted (x : nat * A) (l : list (nat * A)) :
  StronglySorted (key_le le) l -> StronglySorted (key_le le) (insert_sorted le x l).
Proof.
  induction 1 as [|y l Hl IH Hy]; cbn.
  - repeat constructor.
  - destruct (le x.2 y.2) eqn:Hxy.
    + constructor; [by constructor|]. constructor; [exact Hxy|].
      eapply Forall_impl; [exact Hy|]. intros z Hz. unfold key_le in *.
      by eapply le_trans.
    + constructor; [exact IH|].
      rewrite insert_sorted_Permutation. constructor; [|exact Hy].
      by apply le_total.
Qed.

Lemma sort_pairs (ps : list (nat * A)) :
  foldr (insert_sorted le) [] ps ≡ₚ ps
  /\ StronglySorted (key_le le) (foldr (insert_sorted le) [] ps).
Proof.
  induction ps as [|p ps [IHp IHs]]; cbn; [split; [done | constructor]|].
  split.
  - by rewrite insert_sorted_Permutation, IHp.
  - by apply insert_sorted_StronglySorted.
Qed.

(** [np_argsort] returns a permutation of the indices, along which the
    values are in order. *)
Lemma np_argsort_spec (l : list A) (d : A) :
  np_argsort le l ≡ₚ seq 0 (length l)
  /\ map (fun i => nth i l d) (np_argsort le l) ≡ₚ l
  /\ StronglySorted (decided le) (map (fun i => nth i l d) (np_argsort le l)).
Proof.
  unfold np_argsort.
  destruct (sort_pairs (imap pair l)) as [Hperm Hsorted].
  set (P := foldr (insert_sorted le) [] (imap pair l)) in *.
  assert (Hfst : (imap pair l).*1 = seq 0 (length l)).
  { rewrite fmap_imap. rewrite (imap_ext _ (fun j _ => (fun i : nat => i) j)) by done.
    rewrite (imap_seq_0 l (fun i : nat => i)). apply list_fmap_id. }
  assert (Hsnd : (imap pair l).*2 = l).
  { rewrite fmap_imap. rewrite (imap_ext _ (fun _ x => x)) by done.
    clear. induction l as [|x l IH]; [done|]. rewrite imap_cons. f_equal.
    exact IH. }
  assert (Hval : map (fun i => nth i l d) P.*1 = P.*2).
  { assert (Hall : Forall (fun p : nat * A => l !! p.1 = Some p.2) P).
    { rewrite Hperm. apply Forall_forall. intros [i x] Hin.
      apply elem_of_lookup_imap in Hin as (i' & x' & [= -> ->] & Hx). exact Hx. }
    clear -Hall. induction Hall as [|[i x] P Hp _ IH]; [done|].
    cbn in *. rewrite IH. f_equal. by apply nth_lookup_Some. }
  split; [by rewrite Hperm, Hfst|]. rewrite Hval. split.
  - by rewrite Hperm, Hsnd.
  - clear -Hsorted. induction Hsorted as [|p P _ IH Hp]; [constructor|].
    cbn. constructor; [exact IH|]. apply Forall_fmap.
    eapply Forall_impl; [exact Hp|]. by intros q Hq.
Qed.

End ArgsortSpec.

Lemma StronglySorted_impl {A} (R1 R2 : A -> A -> Prop) (l : list A) :
  (forall x y, R1 x y -> R2 x y) -> StronglySorted R1 l -> StronglySorted R2 l.
Proof.
  intros HR. induction 1 as [|x l _ IH Hx]; constructor; [exact IH|].
  eapply Forall_impl; [exact Hx|]. intros y. apply HR.
Qed.

Lemma StronglySorted_seq (j n : nat) : StronglySorted Nat.le (seq j n).
Proof.
  revert j. induction n as [|n IH]; intros j; cbn; constructor; [apply IH|].
  apply Forall_seq. intros i Hi. lia.
Qed.

(** Sorting by index a permutation of the indices gives its inverse. *)
Lemma np_argsort_inverse (indices : list nat) :
  indices ≡ₚ seq 0 (length indices) ->
  np_argsort Nat.leb indices ≡ₚ seq 0 (length indices)
  /\ map (fun i => nth i indices 0%nat) (np_argsort Nat.leb indices)
     = seq 0 (length indices).
Proof.
  intros Hperm.
  destruct (np_argsort_spec Nat.leb) with (l := indices) (d := 0%nat)
    as (Hinv & Hvalues & Hsorted).
  - intros x y Hxy. apply Nat.leb_le. apply Nat.leb_gt in Hxy. lia.
  - intros x y z Hxy Hyz. apply Nat.leb_le. apply Nat.leb_le in Hxy, Hyz. lia.
  - split; [exact Hinv|].
    apply (StronglySorted_unique Nat.le).
    + eapply StronglySorted_impl; [|exact Hsorted].
      intros x y Hxy. by apply Nat.leb_le.
    + apply StronglySorted_seq.
    + by rewrite Hvalues.
Qed.

Lemma Rleb_total (x y : R) : Rleb x y = false -> Rleb y x = true.
Proof.
  unfold Rleb. intros Hxy%bool_decide_eq_false. apply bool_decide_eq_true. lra.
Qed.

Lemma Rleb_trans (x y z : R) : Rleb x y = true -> Rleb y z = true -> Rleb x z = true.
Proof.
  unfold Rleb. intros Hxy%bool_decide_eq_true Hyz%bool_decide_eq_true.
  apply bool_decide_eq_true. lra.
Qed.

(** The rank of an observation: where it stands in the sorted sequence, and
    where its bandwidth is read. *)
Lemma rank_of_observation (mus : list R) (j : nat) (mu : R) :
  mus !! j = Some mu ->
  let sorted_indices := np_argsort Rleb mus in
  exists r,
    np_argsort Nat.leb sorted_indices !! j = Some r
    /\ (r < length mus)%nat
    /\ take_indices mus sorted_indices !! r = Some mu.
Proof.
  intros Hmu sorted_indices.
  destruct (np_argsort_spec Rleb Rleb_total Rleb_trans mus 0) as (Hidx & _ & _).
  fold sorted_indices in Hidx.
  assert (Hlen : length sorted_indices = length mus) by apply length_np_argsort.
  rewrite <- Hlen in Hidx.
  destruct (np_argsort_inverse sorted_indices Hidx) as [Hinv Hval].
  pose proof (lookup_lt_Some _ _ _ Hmu) as Hj.
  destruct (lookup_lt_is_Some_2 (np_argsort Nat.leb sorted_indices) j) as [r Hr].
  { rewrite length_np_argsort. lia. }
  exists r. split; [exact Hr|].
  assert (Hrn : (r < length mus)%nat).
  { apply list_elem_of_lookup_2 in Hr. rewrite Hinv in Hr.
    apply elem_of_seq in Hr. lia. }
  split; [exact Hrn|].
  destruct (lookup_lt_is_Some_2 sorted_indices r) as [i Hi]; [lia|].
  unfold take_indices. apply (lookup_map (fun i => nth i mus 0)) in Hi as Hmap.
  rewrite Hmap. f_equal.
  apply (lookup_map (fun i => nth i sorted_indices 0%nat)) in Hr as Hjr.
  rewrite Hval in Hjr. apply lookup_seq in Hjr as [Hjr _]. cbn in Hjr.
  rewrite (nth_lookup_Some _ _ _ _ Hi) in Hjr. subst i.
  by apply nth_lookup_Some.
Qed.

(** ** The univariate bandwidth *)

(** X14.  The bandwidth the univariate rule gives an observation is the gap to
    its neighbours in the sorted sequence of the points and the two
    endpoints, read at the rank of the observation: the bandwidths come
    back in the order of the observations. *)
Theorem univariate_sigma (consider_endpoints : bool) (low high : R) (step : option R)
    (mus : list R) (j : nat) (mu : R) :
  mus !! j = Some mu ->
  exists (sorted : list R) (r : nat) (x z : R),
    sorted ≡ₚ mus
    /\ StronglySorted Rle sorted
    /\ sorted !! r = Some mu
    /\ ((low - default 0 step / 2) :: sorted ++ [high + default 0 step / 2]) !! r
       = Some x
    /\ ((low - default 0 step / 2) :: sorted ++ [high + default 0 step / 2])
         !! (r + 2)%nat = Some z
    /\ neighbour_sigmas consider_endpoints low high step mus !! j
       = Some (neighbour_gap consider_endpoints (length mus) r x mu z).
Proof.
  intros Hmu.
  destruct (np_argsort_spec Rleb Rleb_total Rleb_trans mus 0) as (_ & Hperm & Hsorted).
  destruct (rank_of_observation mus j mu Hmu) as (r & Hr & Hrn & Hrank).
  unfold neighbour_sigmas.
  change (map (fun i => nth i mus 0) (np_argsort Rleb mus))
    with (take_indices mus (np_argsort Rleb mus)) in *.
  set (sorted := take_indices mus (np_argsort Rleb mus)) in *.
  set (we := (low - default 0 step / 2) :: sorted ++ [high + default 0 step / 2]).
  assert (Hn : length sorted = length mus).
  { subst sorted. by rewrite length_take_indices, length_np_argsort. }
  assert (Hm : length we = (length mus + 2)%nat).
  { subst we. cbn. rewrite length_app, Hn. cbn. lia. }
  destruct (lookup_lt_is_Some_2 we r) as [x Hx]; [lia|].
  destruct (lookup_lt_is_Some_2 we (r + 2)) as [z Hz]; [lia|].
  assert (Hy : we !! (r + 1)%nat = Some mu).
  { subst we. rewrite Nat.add_1_r.
    change ((sorted ++ [high + default 0 step / 2]) !! r = Some mu).
    by rewrite lookup_app_l by lia. }
  exists sorted, r, x, z.
  split; [exact Hperm|]. split.
  { eapply StronglySorted_impl; [|exact Hsorted].
    intros a b Hab. by apply bool_decide_eq_true in Hab. }
  split; [exact Hrank|]. split; [exact Hx|]. split; [exact Hz|].
  set (m := length we).
  set (inner := take (m - 2) (drop 1 we)).
  set (S := zip_with Rmax (zip_with Rminus inner (take (m - 2) we))
              (zip_with Rminus (drop 2 we) inner)).
  assert (HS : S !! r = Some (Rmax (mu - x) (z - mu))).
  { by apply neighbour_gap_lookup. }
  assert (HSn : length S = length mus).
  { subst S inner. rewrite !length_zip_with, !length_take, !length_drop.
    subst m. lia. }
  unfold neighbour_gap, take_indices.
  assert (Hcond : bool_decide (4 <= m)%nat = bool_decide (2 <= length mus)%nat).
  { subst m. apply bool_decide_ext. lia. }
  rewrite Hcond.
  destruct (negb consider_endpoints && bool_decide (2 <= length mus)%nat) eqn:Hc.
  2:{ rewrite (lookup_map (fun i => nth i S 0) _ _ _ Hr).
      by rewrite (nth_lookup_Some _ _ _ _ HS). }
  apply andb_true_iff in Hc as [_ H2%bool_decide_eq_true].
  rewrite (lookup_map (fun i => nth i _ 0) _ _ _ Hr). f_equal.
  apply nth_lookup_Some. rewrite HSn.
  destruct (decide (r = length mus - 1)%nat) as [Hlast|Hlast].
  - rewrite Hlast. rewrite list_lookup_insert_eq by (rewrite length_insert; lia).
    f_equal. replace (m - 2)%nat with (r + 1)%nat by (subst m; lia).
    replace (m - 3)%nat with r by (subst m; lia).
    by rewrite (nth_lookup_Some _ _ _ _ Hx), (nth_lookup_Some _ _ _ _ Hy).
  - rewrite list_lookup_insert_ne by lia.
    destruct (decide (r = 0)%nat) as [Hfirst|Hfirst].
    + subst r. rewrite list_lookup_insert_eq by lia. f_equal.
      by rewrite (nth_lookup_Some _ _ _ _ Hy), (nth_lookup_Some _ _ _ _ Hz).
    + by rewrite list_lookup_insert_ne by lia.
Qed.

Lemma univariate_sigma_witness :
  exists (sorted : list R) (r : nat) (x z : R),
    sorted ≡ₚ [3 / 4; 1 / 4]
    /\ StronglySorted Rle sorted
    /\ sorted !! r = Some (3 / 4)
    /\ ((0 - default 0 None / 2) :: sorted ++ [1 + default 0 None / 2]) !! r = Some x
    /\ ((0 - default 0 None / 2) :: sorted ++ [1 + default 0 None / 2])
         !! (r + 2)%nat = Some z
    /\ neighbour_sigmas true 0 1 None [3 / 4; 1 / 4] !! 0%nat
       = Some (neighbour_gap true 2 r x (3 / 4) z).
Proof.
  apply (univariate_sigma true 0 1 None [3 / 4; 1 / 4] 0 (3 / 4)).
  reflexivity.
Defined.

(** ** A weight function that returns one weight *)

(** X15.  When the prior is considered, a single weight returned for one or more
    observations is broadcast: every observation gets that weight, and the
    vector is these weights and the prior weight, divided by their sum. *)
Theorem single_weight_broadcast (n : nat) (parameters : _ParzenEstimatorParameters)
    (h : heap) (x : Float64.t) :
  prior_considered n parameters = true ->
  (1 <= n)%nat ->
  weights parameters n = [x] ->
  ~ invalid_weights [x] ->
  exists w h',
    _calculate_weights None n parameters h = Ok (w, h')
    /\ read h' w
       = normalize (replicate n x ++ [Float64.of_option (prior_weight parameters)]).
Proof.
  intros Hp Hn Hw Hv. rewrite calculate_weights_computed, Hp, Hw.
  assert (Ht : take n [x] = [x]).
  { destruct n as [|n]; [lia|]. cbn. by rewrite take_nil. }
  rewrite Ht. apply check_weights_ok in Hv. rewrite Hv. cbn [mbind result_bind].
  assert (Hb : broadcast_to n [x] = Ok (replicate n x)).
  { unfold broadcast_to. case_decide as Hl; [|done].
    cbn in Hl. by rewrite <- Hl. }
  rewrite Hb. cbn [mbind result_bind]. eexists _, _. split; [reflexivity|].
  apply read_allocated; [cbn [base]; apply lookup_insert_eq|].
  cbn [size]. rewrite length_normalize, length_app, length_replicate. cbn. lia.
Qed.

Lemma single_weight_broadcast_witness :
  exists w h',
    _calculate_weights None 3 one_weight_prior_parameters ∅ = Ok (w, h')
    /\ read h' w
       = normalize (replicate 3 (Float64.Fin 2)
                    ++ [Float64.of_option (prior_weight one_weight_prior_parameters)]).
Proof.
  apply (single_weight_broadcast 3 one_weight_prior_parameters ∅ (Float64.Fin 2)).
  - reflexivity.
  - lia.
  - reflexivity.
  - apply valid_not_invalid.
    + constructor; [cbn; lra | constructor].
    + intros _. cbn. lra.
Defined.
